(** * dataapp_supervivencia: risk scorer and data normaliser

    A shallow embedding of the two deterministic units of
    [dataapp_supervivencia.py]:

    - [calcular_score_riesgo] together with the probability and the
      category computed from its result in [mostrar_predictor];
    - [procesar_datos], [crear_datos_ejemplo] and [cargar_datos];
    - the three figures of the metric tiles of [mostrar_dashboard].

    Numbers.  Python floats are modelled by exact rationals ([Q]); NaN and
    infinities are not modelled.  Every threshold the scorer compares
    against (18.5, 37.5, 38.0, 38.5, 20, 22, 24, 30, 35, 90, 93, 95) is a
    dyadic rational, hence an exact double, so each comparison of the
    source has the value the model gives it.  Every increment is a multiple
    of 0.1, so the exact sum has one decimal; the float sum of at most
    eleven such terms is within a few units in the last place of it, far
    from any tie of [round(score, 2)], which the model renders as exact
    round-half-even on hundredths ([round2]).

    Tables.  A [DataFrame] is a row count with a finite map from column
    names to columns.  [numpy.random] is a parameter ([Aleatorio]): its
    state is threaded through the calls and only the shape and range of a
    draw are assumed.  Rendering calls ([st.success], [st.error], ...) and
    the [st.cache_data] memoisation are left out. *)

From Stdlib Require Import ZArith QArith Lqa Lia String List Bool.
From stdpp Require Import gmap strings list fin_maps.

Local Open Scope Z_scope.
Local Open Scope Q_scope.

(** ** Numeric helpers *)

(** Python's [a < b] and [a >= b] on floats. *)
Definition Qltb (a b : Q) : bool := negb (Qle_bool b a).
Definition Qgeb (a b : Q) : bool := Qle_bool b a.

(** Round-half-even of the fraction [n / d] to an integer. *)
Definition round_half_even (n : Z) (d : positive) : Z :=
  let q := (n / Z.pos d)%Z in
  let r := (n mod Z.pos d)%Z in
  match (2 * r ?= Z.pos d)%Z with
  | Lt => q
  | Gt => (q + 1)%Z
  | Eq => if Z.even q then q else (q + 1)%Z
  end.

(** [round(x, 2)]. *)
Definition round2 (x : Q) : Q :=
  round_half_even (Qnum x * 100) (Qden x) # 100.

(** Python's two-argument [min] and [max]: the first argument is kept
    unless the second is strictly smaller (resp. larger). *)
Definition py_min (a b : Q) : Q := if Qltb b a then b else a.
Definition py_max (a b : Q) : Q := if Qltb a b then b else a.

(** ** The risk scorer *)

Module Scorer.

(** Each [if]/[elif] block of [calcular_score_riesgo] is a step on the
    accumulator [score]. *)

Definition paso_edad (edad : Z) (score : Q) : Q :=
  if (edad >=? 60)%Z then score + 3.0
  else if (edad >=? 40)%Z then score + 2.0
  else if (edad >=? 18)%Z then score + 1.0
  else score.

Definition paso_ct_blood (ct_blood : Q) (score : Q) : Q :=
  if Qltb ct_blood 20 then score + 2.5
  else if Qltb ct_blood 22 then score + 1.5
  else if Qltb ct_blood 24 then score + 0.5
  else score.

Definition paso_bmi (bmi : Q) (score : Q) : Q :=
  if Qltb 35 bmi then score + 2.0
  else if Qltb 30 bmi then score + 1.0
  else if Qltb bmi 18.5 then score + 1.0
  else score.

Definition paso_genero (genero : string) (score : Q) : Q :=
  if String.eqb genero "Masculino" then score + 0.5 else score.

Definition paso_temperatura (temperatura : Q) (score : Q) : Q :=
  if Qgeb temperatura 38.5 then score + 2.0
  else if Qgeb temperatura 38.0 then score + 1.5
  else if Qgeb temperatura 37.5 then score + 1.0
  else score.

Definition paso_tos (tos : string) (score : Q) : Q :=
  if String.eqb tos "Severa" then score + 1.5
  else if String.eqb tos "Moderada" then score + 1.0
  else if String.eqb tos "Leve" then score + 0.5
  else score.

Definition paso_escalofrios (escalofrios : string) (score : Q) : Q :=
  if String.eqb escalofrios "Sí" then score + 0.8 else score.

Definition paso_dolores (dolores : string) (score : Q) : Q :=
  if String.eqb dolores "Severos" then score + 1.2
  else if String.eqb dolores "Moderados" then score + 0.8
  else if String.eqb dolores "Leves" then score + 0.4
  else score.

Definition paso_vomitos (vomitos : string) (score : Q) : Q :=
  if String.eqb vomitos "Sí" then score + 0.7 else score.

Definition paso_dificultad (dificultad_respiratoria : string) (score : Q) : Q :=
  if String.eqb dificultad_respiratoria "Severa" then score + 2.5
  else if String.eqb dificultad_respiratoria "Moderada" then score + 1.5
  else if String.eqb dificultad_respiratoria "Leve" then score + 0.8
  else score.

Definition paso_saturacion (saturacion_oxigeno : Q) (score : Q) : Q :=
  if Qltb saturacion_oxigeno 90 then score + 3.0
  else if Qltb saturacion_oxigeno 93 then score + 2.0
  else if Qltb saturacion_oxigeno 95 then score + 1.0
  else score.

(** The accumulated sum just before [return round(score, 2)]. *)
Definition score_acumulado
    (edad : Z) (ct_blood bmi : Q) (genero : string) (temperatura : Q)
    (tos escalofrios dolores vomitos dificultad_respiratoria : string)
    (saturacion_oxigeno : Q) : Q :=
  let score := 0 in
  let score := paso_edad edad score in
  let score := paso_ct_blood ct_blood score in
  let score := paso_bmi bmi score in
  let score := paso_genero genero score in
  let score := paso_temperatura temperatura score in
  let score := paso_tos tos score in
  let score := paso_escalofrios escalofrios score in
  let score := paso_dolores dolores score in
  let score := paso_vomitos vomitos score in
  let score := paso_dificultad dificultad_respiratoria score in
  let score := paso_saturacion saturacion_oxigeno score in
  score.

Definition calcular_score_riesgo
    (edad : Z) (ct_blood bmi : Q) (genero : string) (temperatura : Q)
    (tos escalofrios dolores vomitos dificultad_respiratoria : string)
    (saturacion_oxigeno : Q) : Q :=
  round2 (score_acumulado edad ct_blood bmi genero temperatura tos
            escalofrios dolores vomitos dificultad_respiratoria
            saturacion_oxigeno).

(** [mostrar_predictor]: the probability and the category derived from
    the score once the button is pressed. *)

Definition probabilidad (score : Q) : Q :=
  py_min 0.95 (py_max 0.05 (score / 15)).

Record Evaluacion := {
  categoria : string;
  color : string;
  recomendacion : string
}.

Definition clasificar (score : Q) : Evaluacion :=
  if Qgeb score 10 then
    {| categoria := "ALTO RIESGO"; color := "red";
       recomendacion := "🚨 URGENCIA MÉDICA INMEDIATA - POSIBLE INGRESO A UCI" |}
  else if Qgeb score 7 then
    {| categoria := "RIESGO MODERADO-ALTO"; color := "orange";
       recomendacion := "⚠️ HOSPITALIZACIÓN RECOMENDADA - MONITORIZACIÓN CONTINUA" |}
  else if Qgeb score 4 then
    {| categoria := "RIESGO MODERADO"; color := "yellow";
       recomendacion := "📋 OBSERVACIÓN HOSPITALARIA - EVALUACIÓN PERIÓDICA" |}
  else
    {| categoria := "BAJO RIESGO"; color := "green";
       recomendacion := "✅ SEGUIMIENTO AMBULATORIO - CONTROL DOMICILIARIO" |}.

End Scorer.

(** ** The rubric as the specification words it

    The rubric table: for each factor a list of bands in descending
    severity, each band a condition and its increment; the first band
    whose condition holds gives the factor's contribution. *)

Module Rubric.

Record Entrada := {
  edad : Z;
  ct_blood : Q;
  bmi : Q;
  genero : string;
  temperatura : Q;
  tos : string;
  escalofrios : string;
  dolores : string;
  vomitos : string;
  dificultad_respiratoria : string;
  saturacion_oxigeno : Q
}.

Inductive factor :=
| FEdad | FCtBlood | FBmi | FGenero | FTemperatura | FTos
| FEscalofrios | FDolores | FVomitos | FDificultad | FSaturacion.

Definition factores : list factor :=
  [FEdad; FCtBlood; FBmi; FGenero; FTemperatura; FTos;
   FEscalofrios; FDolores; FVomitos; FDificultad; FSaturacion].

(** The bands of a factor at an input, most severe first. *)
Definition bandas (f : factor) (x : Entrada) : list (bool * Q) :=
  match f with
  | FEdad =>
      [((edad x >=? 60)%Z, 3.0); ((edad x >=? 40)%Z, 2.0); ((edad x >=? 18)%Z, 1.0)]
  | FCtBlood =>
      [(Qltb (ct_blood x) 20, 2.5); (Qltb (ct_blood x) 22, 1.5); (Qltb (ct_blood x) 24, 0.5)]
  | FBmi =>
      [(Qltb 35 (bmi x), 2.0); (Qltb 30 (bmi x), 1.0); (Qltb (bmi x) 18.5, 1.0)]
  | FGenero =>
      [(String.eqb (genero x) "Masculino", 0.5)]
  | FTemperatura =>
      [(Qgeb (temperatura x) 38.5, 2.0); (Qgeb (temperatura x) 38.0, 1.5);
       (Qgeb (temperatura x) 37.5, 1.0)]
  | FTos =>
      [(String.eqb (tos x) "Severa", 1.5); (String.eqb (tos x) "Moderada", 1.0);
       (String.eqb (tos x) "Leve", 0.5)]
  | FEscalofrios =>
      [(String.eqb (escalofrios x) "Sí", 0.8)]
  | FDolores =>
      [(String.eqb (dolores x) "Severos", 1.2); (String.eqb (dolores x) "Moderados", 0.8);
       (String.eqb (dolores x) "Leves", 0.4)]
  | FVomitos =>
      [(String.eqb (vomitos x) "Sí", 0.7)]
  | FDificultad =>
      [(String.eqb (dificultad_respiratoria x) "Severa", 2.5);
       (String.eqb (dificultad_respiratoria x) "Moderada", 1.5);
       (String.eqb (dificultad_respiratoria x) "Leve", 0.8)]
  | FSaturacion =>
      [(Qltb (saturacion_oxigeno x) 90, 3.0); (Qltb (saturacion_oxigeno x) 93, 2.0);
       (Qltb (saturacion_oxigeno x) 95, 1.0)]
  end.

(** Highest applicable band wins; 0 when no band applies. *)
Fixpoint primera_banda (bs : list (bool * Q)) : Q :=
  match bs with
  | [] => 0
  | (c, inc) :: bs' => if c then inc else primera_banda bs'
  end.

(** Severity rank of the applicable band: the number of bands at or
    below it, 0 when no band applies. *)
Fixpoint severidad_bandas (bs : list (bool * Q)) : nat :=
  match bs with
  | [] => 0
  | (c, _) :: bs' => if c then S (length bs') else severidad_bandas bs'
  end.

Definition aporte (f : factor) (x : Entrada) : Q := primera_banda (bandas f x).
Definition severidad (f : factor) (x : Entrada) : nat := severidad_bandas (bandas f x).

Definition suma (l : list Q) : Q := fold_right Qplus 0 l.

(** The increment of each factor's most severe band. *)
Definition tope (f : factor) : Q :=
  match f with
  | FEdad => 3.0 | FCtBlood => 2.5 | FBmi => 2.0 | FGenero => 0.5
  | FTemperatura => 2.0 | FTos => 1.5 | FEscalofrios => 0.8
  | FDolores => 1.2 | FVomitos => 0.7 | FDificultad => 2.5
  | FSaturacion => 3.0
  end.

#[global] Instance factor_eq_dec : EqDecision factor.
Proof. solve_decision. Defined.

(** The additive total of the rubric and its two-decimal rounding. *)
Definition spec_total (x : Entrada) : Q := suma (map (λ f, aporte f x) factores).
Definition spec_score (x : Entrada) : Q := round2 (spec_total x).

(** [clamp(v, lo, hi)]. *)
Definition clamp (v lo hi : Q) : Q :=
  if Qltb v lo then lo else if Qltb hi v then hi else v.

(** The scorer applied to a packaged input. *)
Definition puntuar (x : Entrada) : Q :=
  Scorer.calcular_score_riesgo (edad x) (ct_blood x) (bmi x) (genero x)
    (temperatura x) (tos x) (escalofrios x) (dolores x) (vomitos x)
    (dificultad_respiratoria x) (saturacion_oxigeno x).

Definition acumular (x : Entrada) : Q :=
  Scorer.score_acumulado (edad x) (ct_blood x) (bmi x) (genero x)
    (temperatura x) (tos x) (escalofrios x) (dolores x) (vomitos x)
    (dificultad_respiratoria x) (saturacion_oxigeno x).

(** Two inputs agree on factor [f]. *)
Definition coincide (f : factor) (x y : Entrada) : Prop :=
  match f with
  | FEdad => edad x = edad y
  | FCtBlood => ct_blood x = ct_blood y
  | FBmi => bmi x = bmi y
  | FGenero => genero x = genero y
  | FTemperatura => temperatura x = temperatura y
  | FTos => tos x = tos y
  | FEscalofrios => escalofrios x = escalofrios y
  | FDolores => dolores x = dolores y
  | FVomitos => vomitos x = vomitos y
  | FDificultad => dificultad_respiratoria x = dificultad_respiratoria y
  | FSaturacion => saturacion_oxigeno x = saturacion_oxigeno y
  end.

(** The worked example of the specification. *)
Definition ejemplo_severo : Entrada :=
  {| edad := 65; ct_blood := 19; bmi := 36; genero := "Masculino";
     temperatura := 39; tos := "Severa"; escalofrios := "Sí";
     dolores := "Severos"; vomitos := "Sí";
     dificultad_respiratoria := "Severa"; saturacion_oxigeno := 88 |}.

(** A mild case and the same case with a higher temperature. *)
Definition ejemplo_leve : Entrada :=
  {| edad := 30; ct_blood := 25; bmi := 22; genero := "Femenino";
     temperatura := 37.6; tos := "Leve"; escalofrios := "No";
     dolores := "Ninguno"; vomitos := "No";
     dificultad_respiratoria := "Ninguna"; saturacion_oxigeno := 97 |}.

Definition ejemplo_leve_febril : Entrada :=
  {| edad := 30; ct_blood := 25; bmi := 22; genero := "Femenino";
     temperatura := 38.7; tos := "Leve"; escalofrios := "No";
     dolores := "Ninguno"; vomitos := "No";
     dificultad_respiratoria := "Ninguna"; saturacion_oxigeno := 97 |}.

End Rubric.

(** ** The data normaliser *)

Module Normalizer.

(** A cell of the table: a number (pandas integer and float columns), a
    string, or a missing value (NaN / None). *)
Inductive valor :=
| VNum (q : Q)
| VStr (s : string)
| VNulo.

(** A pandas [DataFrame]: an index of [n_filas] rows and named columns. *)
Record DataFrame := {
  n_filas : nat;
  columnas : gmap string (list valor)
}.

(** Every column has one cell per row. *)
Definition bien_formada (base : DataFrame) : Prop :=
  ∀ c v, columnas base !! c = Some v → length v = n_filas base.

(** [base[c] = v]. *)
Definition asignar (c : string) (v : list valor) (base : DataFrame) : DataFrame :=
  {| n_filas := n_filas base; columnas := <[c := v]> (columnas base) |}.

(** [(col == s).astype(int)]. *)
Definition igual_a (s : string) (v : valor) : valor :=
  match v with
  | VStr s' => if String.eqb s' s then VNum 1 else VNum 0
  | _ => VNum 0
  end.

(** [bins.searchsorted(x, side="right")] on sorted [bins]: the number of
    edges that are [<= x]. *)
Definition searchsorted_right (bins : list Q) (x : Q) : nat :=
  length (filter (λ b, Qle_bool b x = true) bins).

(** One cell of [pd.cut(col, bins=bins, labels=labels, right=False)].
    A missing cell stays missing, a number outside every bin becomes
    missing, and a string makes the comparison raise ([None]). *)
Definition cut_valor (bins : list Q) (labels : list string) (v : valor) : option valor :=
  match v with
  | VNulo => Some VNulo
  | VStr _ => None
  | VNum x =>
      let ids := searchsorted_right bins x in
      if (ids =? 0)%nat || (ids =? length bins)%nat then Some VNulo
      else Some (from_option VStr VNulo (labels !! (ids - 1)%nat))
  end.

Definition cut (bins : list Q) (labels : list string) (col : list valor) : option (list valor) :=
  mapM (cut_valor bins labels) col.

Definition bins : list Q := [0; 18; 40; 60; 100].
Definition labels : list string := ["0-17"; "18-39"; "40-59"; "60+"]%string.

Definition sintomas : list string := ["fever"; "cough"; "chills"; "aches"; "vomit"]%string.

(** The columns of the canonical schema. *)
Definition canonicas : list string :=
  ["mortalidad"; "age_years"; "bmi_calculado"; "ct_blood"; "fever"; "cough";
   "chills"; "aches"; "vomit"; "gender"; "grupo_edad"; "cluster"]%string.

(** The columns that are filled with fresh draws when absent. *)
Definition rellenables : list string :=
  ["bmi_calculado"; "ct_blood"; "fever"; "cough"; "chills"; "aches"; "vomit";
   "gender"; "cluster"]%string.

(** The column the age is taken from: [age_years], else [age]. *)
Definition age_fuente (base : DataFrame) : list valor :=
  match columnas base !! "age_years" with
  | Some a => a
  | None => default [] (columnas base !! "age")
  end.

(** Every canonical column is there, one cell per row, none missing. *)
Definition poblada (t : DataFrame) : Prop :=
  ∀ c, c ∈ canonicas →
    ∃ v, columnas t !! c = Some v ∧ length v = n_filas t ∧ VNulo ∉ v.

(** [t'] completes [t]: same rows, columns outside [X] kept as they were,
    no column lost, and any fill column that appears has no missing cell. *)
Record completa (X : list string) (t t' : DataFrame) : Prop := {
  co_filas : n_filas t' = n_filas t;
  co_forma : bien_formada t → bien_formada t';
  co_conserva : ∀ c v, c ∉ X → columnas t !! c = Some v → columnas t' !! c = Some v;
  co_dom : ∀ c, is_Some (columnas t !! c) → is_Some (columnas t' !! c);
  co_relleno : ∀ c v,
    c ∈ rellenables → columnas t !! c = None → columnas t' !! c = Some v → VNulo ∉ v
}.

(** What the [mortalidad] column holds after normalisation: zeros and
    ones, computed from [outcome] when the input has that column. *)
Definition mortalidad_ok (t : DataFrame) (m : list valor) : Prop :=
  (∀ x, x ∈ m → x = VNum 0 ∨ x = VNum 1) ∧
  (∀ o, columnas t !! "outcome" = Some o → m = map (igual_a "Death") o).

(** What the [age_years] column holds after normalisation: the input's
    [age_years], else its [age], else integers drawn from [18, 80). *)
Definition edad_ok (t : DataFrame) (a : list valor) : Prop :=
  match columnas t !! "age_years" with
  | Some a0 => a = a0
  | None =>
      match columnas t !! "age" with
      | Some a0 => a = a0
      | None =>
          length a = n_filas t ∧
          ∀ x, x ∈ a → ∃ z : Z, x = VNum (inject_Z z) ∧ (18 <= z < 80)%Z
      end
  end.

(** The state between two blocks of [procesar_datos]: [tk] completes
    [t1], the columns of [L] are in place, and [age_years] holds [a]. *)
Definition inv (L : list string) (a : list valor) (t1 tk : DataFrame) : Prop :=
  completa [] t1 tk ∧ (∀ c, c ∈ L → is_Some (columnas tk !! c)) ∧
  columnas tk !! "age_years" = Some a.

(** The relation between a table and its normalisation. *)
Record normalizada (t t' : DataFrame) : Prop := {
  no_completa : completa ["mortalidad"; "grupo_edad"]%string t t';
  no_canonicas : ∀ c, c ∈ canonicas → is_Some (columnas t' !! c);
  no_mortalidad : ∃ m, columnas t' !! "mortalidad" = Some m ∧ mortalidad_ok t m;
  no_edad : ∃ a gr,
    columnas t' !! "age_years" = Some a ∧ edad_ok t a ∧
    cut bins labels a = Some gr ∧ columnas t' !! "grupo_edad" = Some gr
}.

(** [numpy.random]: the generator is external to the program.  Its global
    state is threaded explicitly and only its documented contract is
    assumed: a draw of [n] values has [n] values, each within the
    requested population or range. *)
Class Aleatorio (G : Type) := {
  seed : Z → G;
  choice : list valor → nat → option (list Q) → G → list valor * G;
  randint : Z → Z → nat → G → list Z * G;
  uniform : Q → Q → nat → G → list Q * G;
  choice_length : ∀ a n p g, a ≠ [] → length (choice a n p g).1 = n;
  choice_elem : ∀ a n p g x, a ≠ [] → x ∈ (choice a n p g).1 → x ∈ a;
  randint_length : ∀ lo hi n g, (lo < hi)%Z → length (randint lo hi n g).1 = n;
  randint_range : ∀ lo hi n g x,
    (lo < hi)%Z → x ∈ (randint lo hi n g).1 → (lo <= x < hi)%Z;
  uniform_length : ∀ lo hi n g, lo < hi → length (uniform lo hi n g).1 = n;
  uniform_range : ∀ lo hi n g x,
    lo < hi → x ∈ (uniform lo hi n g).1 → lo <= x ∧ x < hi
}.

Section Normalizador.
Context {G : Type} `{Aleatorio G}.

(** Computations that draw from the generator and may raise. *)
Definition M (A : Type) : Type := G → option A * G.

Definition ret {A} (a : A) : M A := λ g, (Some a, g).
Definition raise {A} : M A := λ g, (None, g).
Definition bind {A B} (m : M A) (k : A → M B) : M B :=
  λ g, match m g with
       | (Some a, g') => k a g'
       | (None, g') => (None, g')
       end.
(** [try: m  except Exception: h]. *)
Definition try_except {A} (m h : M A) : M A :=
  λ g, match m g with
       | (Some a, g') => (Some a, g')
       | (None, g') => h g'
       end.

Notation "x <- m ;; k" := (bind m (λ x, k))
  (at level 100, m at next level, right associativity).

Definition np_seed (s : Z) : M unit := λ _, (Some tt, seed s).
Definition np_choice (a : list valor) (n : nat) (p : option (list Q)) : M (list valor) :=
  λ g, let r := choice a n p g in (Some r.1, r.2).
Definition np_randint (lo hi : Z) (n : nat) : M (list valor) :=
  λ g, let r := randint lo hi n g in (Some (map (λ z, VNum (inject_Z z)) r.1), r.2).
Definition np_uniform (lo hi : Q) (n : nat) : M (list valor) :=
  λ g, let r := uniform lo hi n g in (Some (map VNum r.1), r.2).
Definition lift_option {A} (o : option A) : M A :=
  match o with Some a => ret a | None => raise end.

(** The [for sintoma in sintomas] loop of [procesar_datos]. *)
Fixpoint asegurar_sintomas (l : list string) (base : DataFrame) : M DataFrame :=
  match l with
  | [] => ret base
  | sintoma :: l' =>
      base <- match columnas base !! sintoma with
              | None =>
                  v <- np_choice [VStr "yes"; VStr "no"] (n_filas base) (Some [0.6; 0.4]) ;;
                  ret (asignar sintoma v base)
              | Some _ => ret base
              end ;;
      asegurar_sintomas l' base
  end.

Definition procesar_datos (base : DataFrame) : M DataFrame :=
  base <- match columnas base !! "outcome" with
          | Some outcome =>
              ret (asignar "mortalidad" (map (igual_a "Death") outcome) base)
          | None =>
              v <- np_choice [VNum 0; VNum 1] (n_filas base) (Some [0.8; 0.2]) ;;
              ret (asignar "mortalidad" v base)
          end ;;
  base <- match columnas base !! "age_years" with
          | None =>
              match columnas base !! "age" with
              | Some age => ret (asignar "age_years" age base)
              | None =>
                  v <- np_randint 18 80 (n_filas base) ;;
                  ret (asignar "age_years" v base)
              end
          | Some _ => ret base
          end ;;
  base <- match columnas base !! "bmi_calculado" with
          | None =>
              v <- np_uniform 18 35 (n_filas base) ;;
              ret (asignar "bmi_calculado" v base)
          | Some _ => ret base
          end ;;
  base <- match columnas base !! "ct_blood" with
          | None =>
              v <- np_uniform 16 26 (n_filas base) ;;
              ret (asignar "ct_blood" v base)
          | Some _ => ret base
          end ;;
  base <- asegurar_sintomas sintomas base ;;
  base <- match columnas base !! "gender" with
          | None =>
              v <- np_choice [VStr "m"; VStr "f"] (n_filas base) None ;;
              ret (asignar "gender" v base)
          | Some _ => ret base
          end ;;
  grupo <- lift_option (cut bins labels (default [] (columnas base !! "age_years"))) ;;
  let base := asignar "grupo_edad" grupo base in
  base <- match columnas base !! "cluster" with
          | None =>
              v <- np_choice [VNum 0; VNum 1; VNum 2; VNum 3] (n_filas base) None ;;
              ret (asignar "cluster" v base)
          | Some _ => ret base
          end ;;
  ret base.

(** [range(1, n + 1)] as a column. *)
Definition rango_ids (n : nat) : list valor :=
  map (λ i, VNum (inject_Z (Z.of_nat i))) (seq 1 n).

Definition crear_datos_ejemplo : M DataFrame :=
  _ <- np_seed 42 ;;
  let n_pacientes := 500%nat in
  let paciente_id := rango_ids n_pacientes in
  age_years <- np_randint 18 80 n_pacientes ;;
  gender <- np_choice [VStr "m"; VStr "f"] n_pacientes None ;;
  bmi_calculado <- np_uniform 18 35 n_pacientes ;;
  ct_blood <- np_uniform 16 26 n_pacientes ;;
  fever <- np_choice [VStr "yes"; VStr "no"] n_pacientes (Some [0.6; 0.4]) ;;
  cough <- np_choice [VStr "yes"; VStr "no"] n_pacientes (Some [0.7; 0.3]) ;;
  chills <- np_choice [VStr "yes"; VStr "no"] n_pacientes (Some [0.4; 0.6]) ;;
  aches <- np_choice [VStr "yes"; VStr "no"] n_pacientes (Some [0.5; 0.5]) ;;
  vomit <- np_choice [VStr "yes"; VStr "no"] n_pacientes (Some [0.3; 0.7]) ;;
  mortalidad <- np_choice [VNum 0; VNum 1] n_pacientes (Some [0.85; 0.15]) ;;
  let base :=
    {| n_filas := n_pacientes;
       columnas :=
         <["mortalidad" := mortalidad]> (<["vomit" := vomit]> (<["aches" := aches]>
         (<["chills" := chills]> (<["cough" := cough]> (<["fever" := fever]>
         (<["ct_blood" := ct_blood]> (<["bmi_calculado" := bmi_calculado]>
         (<["gender" := gender]> (<["age_years" := age_years]>
         (<["paciente_id" := paciente_id]> ∅)))))))))) |} in
  procesar_datos base.

(** [cargar_datos].  [lectura] is what [pd.read_excel] produced: [Some]
    table, or [None] when it raised.  The [procesar_datos] call sits inside
    the [try], so an exception it raises is handled as well. *)
Definition cargar_datos (lectura : option DataFrame) : M DataFrame :=
  try_except
    (base <- lift_option lectura ;;
     procesar_datos base)
    crear_datos_ejemplo.

(** [m] either returns a value satisfying [P], or raises and then [E]
    holds. *)
Definition tripleta {A} (m : M A) (P : A → Prop) (E : Prop) : Prop :=
  ∀ g, (∃ a g', m g = (Some a, g') ∧ P a) ∨ (∃ g', m g = (None, g') ∧ E).

End Normalizador.

(** A small deterministic generator, used to run the normaliser on
    concrete tables: a linear congruential sequence. *)
Definition lcg (g : Z) : Z := ((g * 1103515245 + 12345) mod 2147483648)%Z.

Fixpoint extraer (n : nat) (g : Z) : list Z * Z :=
  match n with
  | O => ([], g)
  | S n' => let g1 := lcg g in
            let r := extraer n' g1 in (g1 :: r.1, r.2)
  end.

Definition lcg_choice (a : list valor) (n : nat) (p : option (list Q)) (g : Z)
  : list valor * Z :=
  let r := extraer n g in
  (map (λ z, nth (Z.to_nat (z mod Z.of_nat (length a))) a VNulo) r.1, r.2).

Definition lcg_randint (lo hi : Z) (n : nat) (g : Z) : list Z * Z :=
  let r := extraer n g in
  (map (λ z, (lo + z mod (hi - lo))%Z) r.1, r.2).

Definition lcg_uniform (lo hi : Q) (n : nat) (g : Z) : list Q * Z :=
  let r := extraer n g in
  (map (λ z, lo + (hi - lo) * ((z mod 1000)%Z # 1000)) r.1, r.2).

(** A canonical two-row table without an [outcome] column. *)
Definition tabla_canonica : DataFrame :=
  {| n_filas := 2;
     columnas :=
       list_to_map
         [("mortalidad", [VNum 1; VNum 1]); ("age_years", [VNum 34; VNum 71]);
          ("bmi_calculado", [VNum 22.5; VNum 31]); ("ct_blood", [VNum 21; VNum 19.5]);
          ("fever", [VStr "yes"; VStr "no"]); ("cough", [VStr "no"; VStr "yes"]);
          ("chills", [VStr "no"; VStr "no"]); ("aches", [VStr "yes"; VStr "yes"]);
          ("vomit", [VStr "no"; VStr "no"]); ("gender", [VStr "f"; VStr "m"]);
          ("grupo_edad", [VStr "18-39"; VStr "60+"]); ("cluster", [VNum 2; VNum 0])]%string |}.

(** A raw two-row table whose [gender] column has an empty cell. *)
Definition tabla_con_hueco : DataFrame :=
  {| n_filas := 2;
     columnas :=
       list_to_map
         [("age", [VNum 34; VNum 71]); ("outcome", [VStr "Recover"; VStr "Death"]);
          ("gender", [VStr "f"; VNulo])]%string |}.

(** A raw one-row table with a centenarian. *)
Definition tabla_centenaria : DataFrame :=
  {| n_filas := 1;
     columnas := list_to_map [("age_years", [VNum 100])]%string |}.

End Normalizer.

(** ** What the normaliser writes, and the dashboard metrics *)

Module Relleno.
Import Normalizer.

(** The values a freshly drawn column can hold, per fill column:
    [np.random.uniform(18, 35)], [np.random.uniform(16, 26)],
    [np.random.choice(['yes', 'no'])], [np.random.choice(['m', 'f'])],
    [np.random.choice([0, 1, 2, 3])]. *)
Definition dominio (c : string) (v : list valor) : Prop :=
  if bool_decide (c ∈ sintomas) then
    ∀ x, x ∈ v → x = VStr "yes" ∨ x = VStr "no"
  else if String.eqb c "gender" then
    ∀ x, x ∈ v → x = VStr "m" ∨ x = VStr "f"
  else if String.eqb c "cluster" then
    ∀ x, x ∈ v → x = VNum 0 ∨ x = VNum 1 ∨ x = VNum 2 ∨ x = VNum 3
  else if String.eqb c "bmi_calculado" then
    ∀ x, x ∈ v → ∃ q : Q, x = VNum q ∧ 18 <= q ∧ q < 35
  else if String.eqb c "ct_blood" then
    ∀ x, x ∈ v → ∃ q : Q, x = VNum q ∧ 16 <= q ∧ q < 26
  else True.

(** [tk] differs from [t] by canonical columns only, and a column that
    [t] lacked holds values of its domain. *)
Definition marco (t tk : DataFrame) : Prop :=
  n_filas tk = n_filas t ∧
  (∀ c, c ∉ canonicas → columnas tk !! c = columnas t !! c) ∧
  (∀ c v, columnas t !! c = None → columnas tk !! c = Some v → dominio c v).

(** The shape of the synthetic table: 500 rows numbered from 1, every
    column within the range it is drawn from. *)
Definition sintetica (t : DataFrame) : Prop :=
  n_filas t = 500%nat ∧
  columnas t !! "paciente_id" = Some (rango_ids 500) ∧
  (∃ a gr,
     columnas t !! "age_years" = Some a ∧ columnas t !! "grupo_edad" = Some gr ∧
     (∀ x, x ∈ a → ∃ z : Z, x = VNum (inject_Z z) ∧ (18 <= z < 80)%Z) ∧
     (∀ y, y ∈ gr → y = VStr "18-39" ∨ y = VStr "40-59" ∨ y = VStr "60+")) ∧
  (∃ v, columnas t !! "bmi_calculado" = Some v ∧
        ∀ x, x ∈ v → ∃ q : Q, x = VNum q ∧ 18 <= q ∧ q < 35) ∧
  (∃ v, columnas t !! "ct_blood" = Some v ∧
        ∀ x, x ∈ v → ∃ q : Q, x = VNum q ∧ 16 <= q ∧ q < 26) ∧
  (∀ c, c ∈ sintomas →
     ∃ v, columnas t !! c = Some v ∧ ∀ x, x ∈ v → x = VStr "yes" ∨ x = VStr "no") ∧
  (∃ v, columnas t !! "gender" = Some v ∧
        ∀ x, x ∈ v → x = VStr "m" ∨ x = VStr "f") ∧
  (∃ v, columnas t !! "cluster" = Some v ∧
        ∀ x, x ∈ v → x = VNum 0 ∨ x = VNum 1 ∨ x = VNum 2 ∨ x = VNum 3) ∧
  (∃ v, columnas t !! "mortalidad" = Some v ∧
        ∀ x, x ∈ v → x = VNum 0 ∨ x = VNum 1).

Section Exacto.
Context {G : Type} `{Aleatorio G}.

(** [m] returns [a] without raising and without drawing. *)
Definition exacto {A} (m : M (G:=G) A) (a : A) : Prop :=
  ∀ g, m g = (Some a, g).

End Exacto.

End Relleno.

Module Dashboard.
Import Normalizer.

(** The numeric cells of a column, missing cells skipped; a string makes
    the reduction raise ([None]). *)
Fixpoint numeros (col : list valor) : option (list Q) :=
  match col with
  | [] => Some []
  | VNum q :: r => match numeros r with Some l => Some (q :: l) | None => None end
  | VNulo :: r => numeros r
  | VStr _ :: _ => None
  end.

(** [Series.mean()]: the mean of the cells that are not missing, NaN when
    there is none. *)
Definition serie_mean (col : list valor) : option valor :=
  match numeros col with
  | None => None
  | Some [] => Some VNulo
  | Some l => Some (VNum (Rubric.suma l / inject_Z (Z.of_nat (length l))))
  end.

(** [v * 100]. *)
Definition por_cien (v : valor) : valor :=
  match v with
  | VNum q => VNum (q * 100)
  | _ => VNulo
  end.

(** The three figures [mostrar_dashboard] computes for its metric tiles:
    [len(base)], [base['mortalidad'].mean() * 100] and
    [base['age_years'].mean()].  A missing column raises ([None]). *)
Record Metricas := {
  total_pacientes : nat;
  tasa_mortalidad : valor;
  edad_promedio : valor
}.

Definition metricas (base : DataFrame) : option Metricas :=
  match columnas base !! "mortalidad" with
  | None => None
  | Some m =>
      match serie_mean m with
      | None => None
      | Some tm =>
          match columnas base !! "age_years" with
          | None => None
          | Some a =>
              match serie_mean a with
              | None => None
              | Some ea =>
                  Some {| total_pacientes := n_filas base;
                          tasa_mortalidad := por_cien tm;
                          edad_promedio := ea |}
              end
          end
      end
  end.

End Dashboard.

(** ** The evaluation shown by the predictor *)

Module Predictor.
Import Scorer Rubric.

(** No band of factor [f] applies at [x]: none of the conditions of its
    [if]/[elif] chain holds. *)
Definition sin_banda (f : factor) (x : Entrada) : Prop :=
  match f with
  | FEdad => (edad x < 18)%Z
  | FCtBlood => 24 <= ct_blood x
  | FBmi => 18.5 <= bmi x ∧ bmi x <= 30
  | FGenero => genero x ≠ "Masculino"%string
  | FTemperatura => temperatura x < 37.5
  | FTos =>
      tos x ≠ "Severa"%string ∧ tos x ≠ "Moderada"%string ∧ tos x ≠ "Leve"%string
  | FEscalofrios => escalofrios x ≠ "Sí"%string
  | FDolores =>
      dolores x ≠ "Severos"%string ∧ dolores x ≠ "Moderados"%string ∧
      dolores x ≠ "Leves"%string
  | FVomitos => vomitos x ≠ "Sí"%string
  | FDificultad =>
      dificultad_respiratoria x ≠ "Severa"%string ∧
      dificultad_respiratoria x ≠ "Moderada"%string ∧
      dificultad_respiratoria x ≠ "Leve"%string
  | FSaturacion => 95 <= saturacion_oxigeno x
  end.

(** The body of the [if st.button(...)] block of [mostrar_predictor]: the
    score of the widget values, the probability and the category. *)
Definition evaluar (x : Entrada) : Q * Q * Evaluacion :=
  let score := puntuar x in
  let probabilidad := probabilidad score in
  (score, probabilidad, clasificar score).

(** An underweight case and the same case at a normal weight. *)
Definition ejemplo_delgado : Entrada :=
  {| edad := 30; ct_blood := 25; bmi := 17; genero := "Femenino";
     temperatura := 37; tos := "Ninguna"; escalofrios := "No";
     dolores := "Ninguno"; vomitos := "No";
     dificultad_respiratoria := "Ninguna"; saturacion_oxigeno := 97 |}.

Definition ejemplo_normal : Entrada :=
  {| edad := 30; ct_blood := 25; bmi := 22; genero := "Femenino";
     temperatura := 37; tos := "Ninguna"; escalofrios := "No";
     dolores := "Ninguno"; vomitos := "No";
     dificultad_respiratoria := "Ninguna"; saturacion_oxigeno := 97 |}.

End Predictor.

(** * Properties *)

(** ** The concrete generator satisfies the contract *)

Module Generador.
Import Normalizer.

Lemma extraer_length n g : length (extraer n g).1 = n.
Proof. revert g; induction n as [|n IH]; intros g; simpl; [done|]. by rewrite IH. Qed.

Lemma extraer_cota n g z : z ∈ (extraer n g).1 → (0 <= z < 2147483648)%Z.
Proof.
  revert g; induction n as [|n IH]; intros g; simpl.
  - by intros ?%elem_of_nil.
  - intros [->|Hz]%elem_of_cons; [|by eapply IH].
    unfold lcg. apply Z.mod_pos_bound. lia.
Qed.

#[global] Program Instance lcg_aleatorio : Aleatorio Z := {|
  seed := λ s, s;
  choice := lcg_choice;
  randint := lcg_randint;
  uniform := lcg_uniform
|}.
Next Obligation.
  intros a n p g _. unfold lcg_choice; simpl. by rewrite length_map, extraer_length.
Qed.
Next Obligation.
  intros a n p g x Ha. unfold lcg_choice; simpl.
  intros (z & -> & Hz)%list_elem_of_fmap.
  apply list_elem_of_In, nth_In.
  assert (0 < length a)%nat by (destruct a; simpl; [done|lia]).
  pose proof (Z.mod_pos_bound z (Z.of_nat (length a))). lia.
Qed.
Next Obligation.
  intros lo hi n g _. unfold lcg_randint; simpl. by rewrite length_map, extraer_length.
Qed.
Next Obligation.
  intros lo hi n g x Hlt. unfold lcg_randint; simpl.
  intros (z & -> & Hz)%list_elem_of_fmap.
  pose proof (Z.mod_pos_bound z (hi - lo)). lia.
Qed.
Next Obligation.
  intros lo hi n g _. unfold lcg_uniform; simpl. by rewrite length_map, extraer_length.
Qed.
Next Obligation.
  intros lo hi n g x Hlt. unfold lcg_uniform; simpl.
  intros (z & -> & Hz)%list_elem_of_fmap.
  pose proof (Z.mod_pos_bound z 1000 ltac:(lia)) as [H0 H1].
  set (k := (z mod 1000)%Z) in *.
  assert (Hf0 : 0 <= k # 1000) by (unfold Qle; simpl; lia).
  assert (Hf1 : k # 1000 < 1) by (unfold Qlt; simpl; lia).
  split; nra.
Qed.

End Generador.


(** ** Comparisons and rounding *)

Lemma Qltb_lt a b : Qltb a b = true ↔ a < b.
Proof.
  unfold Qltb. rewrite negb_true_iff, <- not_true_iff_false, Qle_bool_iff.
  split; [apply Qnot_le_lt | apply Qlt_not_le].
Qed.

Lemma Qltb_ge a b : Qltb a b = false ↔ b <= a.
Proof. unfold Qltb. rewrite negb_false_iff. apply Qle_bool_iff. Qed.

Lemma Qgeb_ge a b : Qgeb a b = true ↔ b <= a.
Proof. apply Qle_bool_iff. Qed.

Lemma Qgeb_lt a b : Qgeb a b = false ↔ a < b.
Proof.
  unfold Qgeb. rewrite <- not_true_iff_false, Qle_bool_iff.
  split; [apply Qnot_le_lt | apply Qlt_not_le].
Qed.

(** Rounding depends on the value of the fraction only. *)
Lemma round_half_even_ext n1 d1 n2 d2 :
  (n1 * Z.pos d2 = n2 * Z.pos d1)%Z →
  round_half_even n1 d1 = round_half_even n2 d2.
Proof.
  intros E. unfold round_half_even.
  assert (Hq : (n1 / Z.pos d1 = n2 / Z.pos d2)%Z).
  { rewrite <- (Z.div_mul_cancel_r n1 (Z.pos d1) (Z.pos d2)) by lia.
    rewrite E, (Z.mul_comm (Z.pos d1)).
    apply Z.div_mul_cancel_r; lia. }
  pose proof (Z.div_mod n1 (Z.pos d1) ltac:(lia)) as H1.
  pose proof (Z.div_mod n2 (Z.pos d2) ltac:(lia)) as H2.
  pose proof (Z.mod_pos_bound n1 (Z.pos d1) ltac:(lia)) as B1.
  pose proof (Z.mod_pos_bound n2 (Z.pos d2) ltac:(lia)) as B2.
  rewrite Hq in *.
  set (q := (n2 / Z.pos d2)%Z) in *.
  set (r1 := (n1 mod Z.pos d1)%Z) in *.
  set (r2 := (n2 mod Z.pos d2)%Z) in *.
  assert (Hr : (r1 * Z.pos d2 = r2 * Z.pos d1)%Z) by nia.
  assert (Hc : (2 * r1 ?= Z.pos d1)%Z = (2 * r2 ?= Z.pos d2)%Z).
  { destruct (Z.compare_spec (2 * r2) (Z.pos d2)).
    - apply Z.compare_eq_iff. nia.
    - apply Z.compare_lt_iff. nia.
    - apply Z.compare_gt_iff. nia. }
  now rewrite Hc.
Qed.

Lemma round2_Qeq x y : x == y → round2 x = round2 y.
Proof.
  unfold Qeq, round2. intros E. f_equal.
  apply round_half_even_ext. lia.
Qed.

(** A value with at most two decimals is returned unchanged. *)
Lemma round2_exacto x (k : Z) : x == k # 100 → round2 x = k # 100.
Proof.
  intros E. rewrite (round2_Qeq _ _ E). unfold round2, round_half_even. simpl.
  rewrite Z.div_mul, Z.mod_mul by lia. reflexivity.
Qed.

(** ** The risk scorer *)

Module ScorerFacts.
Import Scorer Rubric.

Ltac partir_condiciones :=
  repeat match goal with
         | |- context [if ?c then _ else _] => destruct c
         end.

(** Each block of the function adds its factor's rubric contribution to
    the accumulator, whatever the accumulator holds. *)
Ltac paso_aporte p :=
  intros; unfold p, aporte, bandas, primera_banda; partir_condiciones; ring.

Lemma paso_edad_aporte (x : Entrada) (s : Q) :
  paso_edad (edad x) s == s + aporte FEdad x.
Proof. paso_aporte paso_edad. Qed.

Lemma paso_ct_blood_aporte (x : Entrada) (s : Q) :
  paso_ct_blood (ct_blood x) s == s + aporte FCtBlood x.
Proof. paso_aporte paso_ct_blood. Qed.

Lemma paso_bmi_aporte (x : Entrada) (s : Q) :
  paso_bmi (bmi x) s == s + aporte FBmi x.
Proof. paso_aporte paso_bmi. Qed.

Lemma paso_genero_aporte (x : Entrada) (s : Q) :
  paso_genero (genero x) s == s + aporte FGenero x.
Proof. paso_aporte paso_genero. Qed.

Lemma paso_temperatura_aporte (x : Entrada) (s : Q) :
  paso_temperatura (temperatura x) s == s + aporte FTemperatura x.
Proof. paso_aporte paso_temperatura. Qed.

Lemma paso_tos_aporte (x : Entrada) (s : Q) :
  paso_tos (tos x) s == s + aporte FTos x.
Proof. paso_aporte paso_tos. Qed.

Lemma paso_escalofrios_aporte (x : Entrada) (s : Q) :
  paso_escalofrios (escalofrios x) s == s + aporte FEscalofrios x.
Proof. paso_aporte paso_escalofrios. Qed.

Lemma paso_dolores_aporte (x : Entrada) (s : Q) :
  paso_dolores (dolores x) s == s + aporte FDolores x.
Proof. paso_aporte paso_dolores. Qed.

Lemma paso_vomitos_aporte (x : Entrada) (s : Q) :
  paso_vomitos (vomitos x) s == s + aporte FVomitos x.
Proof. paso_aporte paso_vomitos. Qed.

Lemma paso_dificultad_aporte (x : Entrada) (s : Q) :
  paso_dificultad (dificultad_respiratoria x) s == s + aporte FDificultad x.
Proof. paso_aporte paso_dificultad. Qed.

Lemma paso_saturacion_aporte (x : Entrada) (s : Q) :
  paso_saturacion (saturacion_oxigeno x) s == s + aporte FSaturacion x.
Proof. paso_aporte paso_saturacion. Qed.

Lemma acumular_suma (x : Entrada) : acumular x == spec_total x.
Proof.
  unfold acumular, score_acumulado. cbv zeta.
  rewrite paso_saturacion_aporte, paso_dificultad_aporte, paso_vomitos_aporte,
    paso_dolores_aporte, paso_escalofrios_aporte, paso_tos_aporte,
    paso_temperatura_aporte, paso_genero_aporte, paso_bmi_aporte,
    paso_ct_blood_aporte, paso_edad_aporte.
  unfold spec_total, factores, suma. cbn [map fold_right]. ring.
Qed.

(** Every contribution is a whole number of tenths between 0 and the
    factor's top band. *)
Lemma aporte_decima (f : factor) (x : Entrada) :
  ∃ k : Z, aporte f x == k # 10.
Proof.
  destruct f; unfold aporte, bandas, primera_banda; partir_condiciones;
    match goal with
    | |- ∃ k, ?q == _ => exists (Qnum q * 10 / Z.pos (Qden q))%Z; reflexivity
    end.
Qed.

Lemma aporte_cotas (f : factor) (x : Entrada) :
  0 <= aporte f x ∧ aporte f x <= tope f.
Proof.
  destruct f; unfold aporte, bandas, primera_banda, tope; partir_condiciones;
    split; apply Qle_bool_imp_le; reflexivity.
Qed.

Lemma suma_decima (l : list Q) :
  (∀ q, In q l → ∃ k : Z, q == k # 10) → ∃ k : Z, suma l == k # 10.
Proof.
  induction l as [|a l IH]; intros Hl.
  - exists 0%Z. reflexivity.
  - destruct (Hl a (or_introl eq_refl)) as [ka Ha].
    destruct IH as [kl Hkl]; [intros q Hq; apply Hl; now right|].
    exists (ka + kl)%Z. cbn [suma fold_right]. fold (suma l).
    rewrite Ha, Hkl. unfold Qeq, Qplus; simpl. lia.
Qed.

Lemma spec_total_decima (x : Entrada) : ∃ k : Z, spec_total x == k # 10.
Proof.
  apply suma_decima. intros q Hq. apply in_map_iff in Hq as (f & <- & _).
  apply aporte_decima.
Qed.

(** The sum already has one decimal, so [round] returns it unchanged. *)
Lemma puntuar_exacto (x : Entrada) : puntuar x == spec_total x.
Proof.
  destruct (spec_total_decima x) as [k Hk].
  unfold puntuar, calcular_score_riesgo. fold (acumular x).
  rewrite (round2_exacto _ (k * 10)).
  - rewrite Hk. unfold Qeq; simpl. lia.
  - rewrite acumular_suma, Hk. unfold Qeq; simpl. lia.
Qed.

(** C1: for every input the returned score is the rubric's additive
    total (per factor, the increment of the first band that applies, 0 when
    none does) rounded to two decimals. *)
Theorem calcular_score_riesgo_rubrica
    (edad : Z) (ct_blood bmi : Q) (genero : string) (temperatura : Q)
    (tos escalofrios dolores vomitos dificultad_respiratoria : string)
    (saturacion_oxigeno : Q) :
  calcular_score_riesgo edad ct_blood bmi genero temperatura tos escalofrios
    dolores vomitos dificultad_respiratoria saturacion_oxigeno
  = spec_score (Build_Entrada edad ct_blood bmi genero temperatura tos
      escalofrios dolores vomitos dificultad_respiratoria saturacion_oxigeno).
Proof.
  set (x := Build_Entrada _ _ _ _ _ _ _ _ _ _ _).
  change (puntuar x = spec_score x).
  unfold puntuar, calcular_score_riesgo, spec_score. fold (acumular x).
  apply round2_Qeq, acumular_suma.
Qed.

(** C2: the category follows inclusive lower bounds 10, 7 and 4 on the
    score, highest first, and the six boundary scores fall as listed. *)
Theorem clasificar_umbrales (score : Q) :
  (categoria (clasificar score) = "ALTO RIESGO" ↔ 10 <= score) ∧
  (categoria (clasificar score) = "RIESGO MODERADO-ALTO" ↔ 7 <= score ∧ score < 10) ∧
  (categoria (clasificar score) = "RIESGO MODERADO" ↔ 4 <= score ∧ score < 7) ∧
  (categoria (clasificar score) = "BAJO RIESGO" ↔ score < 4) ∧
  (10 <= score →
     recomendacion (clasificar score)
     = "🚨 URGENCIA MÉDICA INMEDIATA - POSIBLE INGRESO A UCI") ∧
  (7 <= score ∧ score < 10 →
     recomendacion (clasificar score)
     = "⚠️ HOSPITALIZACIÓN RECOMENDADA - MONITORIZACIÓN CONTINUA") ∧
  (4 <= score ∧ score < 7 →
     recomendacion (clasificar score)
     = "📋 OBSERVACIÓN HOSPITALARIA - EVALUACIÓN PERIÓDICA") ∧
  (score < 4 →
     recomendacion (clasificar score)
     = "✅ SEGUIMIENTO AMBULATORIO - CONTROL DOMICILIARIO") ∧
  categoria (clasificar 10.00) = "ALTO RIESGO" ∧
  categoria (clasificar 9.99) = "RIESGO MODERADO-ALTO" ∧
  categoria (clasificar 7.00) = "RIESGO MODERADO-ALTO" ∧
  categoria (clasificar 6.99) = "RIESGO MODERADO" ∧
  categoria (clasificar 4.00) = "RIESGO MODERADO" ∧
  categoria (clasificar 3.99) = "BAJO RIESGO".
Proof.
  unfold clasificar.
  destruct (Qgeb score 10) eqn:H10;
    [apply Qgeb_ge in H10 | apply Qgeb_lt in H10];
  (destruct (Qgeb score 7) eqn:H7;
    [apply Qgeb_ge in H7 | apply Qgeb_lt in H7]);
  (destruct (Qgeb score 4) eqn:H4;
    [apply Qgeb_ge in H4 | apply Qgeb_lt in H4]);
  cbn [categoria recomendacion];
  repeat split; intros; try reflexivity; try discriminate; try lra.
Qed.

(** C3: the probability is [clamp(score / 15, 0.05, 0.95)], so it lies in
    [0.05, 0.95] for every score, and is the floor 0.05 at score 0. *)
Theorem probabilidad_clamp (score : Q) :
  probabilidad score == clamp (score / 15) 0.05 0.95 ∧
  0.05 <= probabilidad score ∧ probabilidad score <= 0.95 ∧
  probabilidad 0 == 0.05.
Proof.
  unfold probabilidad, py_min, py_max, clamp.
  split; [|split; [|split]]; try reflexivity.
  all: destruct (Qltb 0.05 (score / 15)) eqn:Ha;
    [apply Qltb_lt in Ha | apply Qltb_ge in Ha];
    destruct (Qltb (score / 15) 0.05) eqn:Hb;
    [apply Qltb_lt in Hb | apply Qltb_ge in Hb | apply Qltb_lt in Hb | apply Qltb_ge in Hb];
    try lra.
  all: repeat match goal with
       | |- context [Qltb ?a ?b] =>
           let E := fresh "E" in
           destruct (Qltb a b) eqn:E;
           [apply Qltb_lt in E | apply Qltb_ge in E]
       end; try lra; try reflexivity.
Qed.

(** A band of higher severity never carries a smaller increment. *)
Lemma aporte_mono (f : factor) (x y : Entrada) :
  (severidad f x ≤ severidad f y)%nat → aporte f x <= aporte f y.
Proof.
  destruct f; unfold severidad, aporte, bandas, severidad_bandas, primera_banda;
    cbn [length]; partir_condiciones; intros Hs;
    first [ apply Qle_bool_imp_le; reflexivity | exfalso; lia ].
Qed.

Lemma coincide_aporte (f : factor) (x y : Entrada) :
  coincide f x y → aporte f x = aporte f y.
Proof. destruct f; unfold coincide, aporte, bandas; intros ->; reflexivity. Qed.

Lemma suma_mono (l : list factor) (x y : Entrada) :
  (∀ f, In f l → aporte f x <= aporte f y) →
  suma (map (λ f, aporte f x) l) <= suma (map (λ f, aporte f y) l).
Proof.
  induction l as [|f l IH]; intros Hl; cbn [map suma fold_right].
  - apply Qle_refl.
  - apply Qplus_le_compat.
    + apply Hl. now left.
    + apply IH. intros g Hg. apply Hl. now right.
Qed.

(** C5: raising one factor to a band of higher severity, the other ten
    factors held fixed, never lowers the score. *)
Theorem puntuar_monotono (f : factor) (x y : Entrada) :
  (∀ g, g ≠ f → coincide g x y) →
  (severidad f x ≤ severidad f y)%nat →
  puntuar x <= puntuar y.
Proof.
  intros Hotros Hsev. rewrite !puntuar_exacto. unfold spec_total.
  apply suma_mono. intros g _.
  destruct (decide (g = f)) as [->|Hne].
  - now apply aporte_mono.
  - rewrite (coincide_aporte g x y) by now apply Hotros.
    apply Qle_refl.
Qed.

Lemma puntuar_monotono_witness :
  (severidad FTemperatura ejemplo_leve ≤ severidad FTemperatura ejemplo_leve_febril)%nat ∧
  puntuar ejemplo_leve <= puntuar ejemplo_leve_febril.
Proof.
  split; [vm_compute; lia|].
  apply (puntuar_monotono FTemperatura ejemplo_leve ejemplo_leve_febril).
  - intros g Hg. destruct g; try reflexivity. now destruct Hg.
  - vm_compute. lia.
Defined.

(** C6, as the specification states it, fails: the eleven top increments
    add up to 19.7, so the accumulated sum of the worked example is not
    23.2. *)
Lemma ejemplo_severo_no_23_2 :
  ¬ (acumular ejemplo_severo == 3.0+2.5+2.0+0.5+2.0+1.5+0.8+1.2+0.7+2.5+3.0 ∧
     acumular ejemplo_severo == 23.2 ∧
     categoria (clasificar (puntuar ejemplo_severo)) = "ALTO RIESGO" ∧
     probabilidad (puntuar ejemplo_severo) == 0.95).
Proof. intros (_ & H & _). vm_compute in H. discriminate H. Qed.

(** C6, amended: on the worked example the accumulated sum is
    3.0+2.5+2.0+0.5+2.0+1.5+0.8+1.2+0.7+2.5+3.0 = 19.7, the returned score
    is 19.7, the category is the highest one and the probability is
    clamped to 0.95. *)
Theorem ejemplo_severo_19_7 :
  acumular ejemplo_severo == 3.0+2.5+2.0+0.5+2.0+1.5+0.8+1.2+0.7+2.5+3.0 ∧
  acumular ejemplo_severo == 19.7 ∧
  puntuar ejemplo_severo == 19.7 ∧
  categoria (clasificar (puntuar ejemplo_severo)) = "ALTO RIESGO" ∧
  recomendacion (clasificar (puntuar ejemplo_severo))
    = "🚨 URGENCIA MÉDICA INMEDIATA - POSIBLE INGRESO A UCI" ∧
  probabilidad (puntuar ejemplo_severo) == 0.95 ∧
  ¬ (puntuar ejemplo_severo / 15 <= 0.95).
Proof.
  repeat split; try reflexivity.
  vm_compute. intros H. now apply H.
Qed.

(** C10: for every input the returned score lies in [0, 19.7], and 19.7 is
    the sum of the eleven top increments. *)
Theorem calcular_score_riesgo_cotas
    (edad : Z) (ct_blood bmi : Q) (genero : string) (temperatura : Q)
    (tos escalofrios dolores vomitos dificultad_respiratoria : string)
    (saturacion_oxigeno : Q) :
  0 <= calcular_score_riesgo edad ct_blood bmi genero temperatura tos
         escalofrios dolores vomitos dificultad_respiratoria saturacion_oxigeno ∧
  calcular_score_riesgo edad ct_blood bmi genero temperatura tos
    escalofrios dolores vomitos dificultad_respiratoria saturacion_oxigeno <= 19.7 ∧
  suma (map tope factores) == 19.7 ∧
  3.0+2.5+2.0+0.5+2.0+1.5+0.8+1.2+0.7+2.5+3.0 == 19.7.
Proof.
  set (x := Build_Entrada edad ct_blood bmi genero temperatura tos
      escalofrios dolores vomitos dificultad_respiratoria saturacion_oxigeno).
  change (0 <= puntuar x ∧ puntuar x <= 19.7 ∧ suma (map tope factores) == 19.7 ∧
          3.0+2.5+2.0+0.5+2.0+1.5+0.8+1.2+0.7+2.5+3.0 == 19.7).
  rewrite !puntuar_exacto. unfold spec_total, factores. cbn [map suma fold_right].
  pose proof (aporte_cotas FEdad x). pose proof (aporte_cotas FCtBlood x).
  pose proof (aporte_cotas FBmi x). pose proof (aporte_cotas FGenero x).
  pose proof (aporte_cotas FTemperatura x). pose proof (aporte_cotas FTos x).
  pose proof (aporte_cotas FEscalofrios x). pose proof (aporte_cotas FDolores x).
  pose proof (aporte_cotas FVomitos x). pose proof (aporte_cotas FDificultad x).
  pose proof (aporte_cotas FSaturacion x).
  unfold tope in *.
  repeat split; try reflexivity; lra.
Qed.

End ScorerFacts.
(** ** The data normaliser *)

Module NormalizerFacts.
Import Normalizer.

(** *** Completion of a table *)

Lemma completa_refl X t : completa X t t.
Proof. split; try done. intros c v _ Hn Hs. congruence. Qed.

Lemma completa_trans X1 X2 t t1 t2 :
  completa X1 t t1 → completa X2 t1 t2 →
  (∀ c, c ∈ rellenables → c ∉ X2) →
  completa (X1 ++ X2) t t2.
Proof.
  intros [F1 W1 C1 D1 R1] [F2 W2 C2 D2 R2] HX. split.
  - congruence.
  - auto.
  - intros c v Hc Hv. rewrite elem_of_app in Hc.
    apply C2; [tauto|]. apply C1; [tauto|done].
  - auto.
  - intros c v Hc Hn Hv. destruct (columnas t1 !! c) as [v1|] eqn:E1.
    + pose proof (C2 c v1 (HX c Hc) E1) as E2.
      assert (v = v1) as -> by congruence. by eapply R1.
    + by eapply R2.
Qed.

Lemma completa_asignar_nueva c v t :
  columnas t !! c = None → (bien_formada t → length v = n_filas t) →
  (c ∈ rellenables → VNulo ∉ v) →
  completa [] t (asignar c v t).
Proof.
  intros Hc Hl Hn. split; simpl.
  - done.
  - intros Hw c' v'. simpl. destruct (decide (c = c')) as [<-|Hne].
    + rewrite lookup_insert_eq. intros [= <-]. auto.
    + rewrite lookup_insert_ne by done. apply Hw.
  - intros c' v' _ Hv. destruct (decide (c = c')) as [<-|Hne]; [congruence|].
    by rewrite lookup_insert_ne.
  - intros c' Hs. destruct (decide (c = c')) as [<-|Hne].
    + rewrite lookup_insert_eq. by eexists.
    + by rewrite lookup_insert_ne.
  - intros c' v' Hr Hnone. destruct (decide (c = c')) as [<-|Hne].
    + rewrite lookup_insert_eq. intros [= <-]. auto.
    + rewrite lookup_insert_ne by done. congruence.
Qed.

Lemma completa_asignar c v t :
  (bien_formada t → length v = n_filas t) → c ∉ rellenables →
  completa [c] t (asignar c v t).
Proof.
  intros Hl Hn. split; simpl.
  - done.
  - intros Hw c' v'. simpl. destruct (decide (c = c')) as [<-|Hne].
    + rewrite lookup_insert_eq. intros [= <-]. auto.
    + rewrite lookup_insert_ne by done. apply Hw.
  - intros c' v' Hc' Hv. rewrite lookup_insert_ne; [done|].
    intros ->. apply Hc'. by left.
  - intros c' Hs. destruct (decide (c = c')) as [<-|Hne].
    + rewrite lookup_insert_eq. by eexists.
    + by rewrite lookup_insert_ne.
  - intros c' v' Hr Hnone. destruct (decide (c = c')) as [<-|Hne]; [done|].
    rewrite lookup_insert_ne by done. congruence.
Qed.

(** A concrete name is not in a concrete list of names. *)
Ltac fuera :=
  let Hin := fresh "Hin" in
  intros Hin;
  repeat (apply elem_of_cons in Hin as [Hin|Hin]; [discriminate|]);
  by apply elem_of_nil in Hin.

(** A concrete name is in a concrete list of names. *)
Ltac esta := repeat first [ apply list_elem_of_here | apply list_elem_of_further ].

(** *** Age groups *)

Ltac partir_bins q :=
  destruct (Qle_bool 0 q) eqn:?H0; destruct (Qle_bool 18 q) eqn:?H18;
  destruct (Qle_bool 40 q) eqn:?H40; destruct (Qle_bool 60 q) eqn:?H60;
  destruct (Qle_bool 100 q) eqn:?H100;
  repeat match goal with
         | H : Qle_bool _ _ = true |- _ => apply Qle_bool_iff in H
         | H : Qle_bool _ _ = false |- _ =>
             apply not_true_iff_false in H; rewrite Qle_bool_iff in H;
             apply Qnot_le_lt in H
         end.

(** The bins are right-open: an age in [lo, hi) gets the label of that
    bin. *)
Lemma cut_valor_bins (q : Q) :
  (0 <= q ∧ q < 18 → cut_valor bins labels (VNum q) = Some (VStr "0-17")) ∧
  (18 <= q ∧ q < 40 → cut_valor bins labels (VNum q) = Some (VStr "18-39")) ∧
  (40 <= q ∧ q < 60 → cut_valor bins labels (VNum q) = Some (VStr "40-59")) ∧
  (60 <= q ∧ q < 100 → cut_valor bins labels (VNum q) = Some (VStr "60+")).
Proof.
  unfold cut_valor, searchsorted_right, bins, labels.
  cbn [filter list_filter].
  partir_bins q; repeat split; intros [Hlo Hhi]; try lra; reflexivity.
Qed.

(** Outside [0, 100) there is no bin. *)
Lemma cut_valor_fuera (q : Q) :
  q < 0 ∨ 100 <= q → cut_valor bins labels (VNum q) = Some VNulo.
Proof.
  unfold cut_valor, searchsorted_right, bins, labels.
  cbn [filter list_filter].
  partir_bins q; intros [Hlo|Hhi]; try lra; reflexivity.
Qed.

Section Tripletas.
Context {G : Type} `{Aleatorio G}.

(** *** Rules for computations *)

Lemma tripleta_ret {A} (a : A) (P : A → Prop) E : P a → tripleta (G:=G) (ret a) P E.
Proof. intros Ha g. left. by exists a, g. Qed.

Lemma tripleta_bind {A B} (m : M A) (k : A → M B) P Q E :
  tripleta (G:=G) m P E → (∀ a, P a → tripleta (G:=G) (k a) Q E) → tripleta (G:=G) (bind m k) Q E.
Proof.
  intros Hm Hk g. unfold bind.
  destruct (Hm g) as [(a & g' & -> & Ha)|(g' & -> & He)].
  - apply Hk, Ha.
  - right. by exists g'.
Qed.

Lemma tripleta_consecuencia {A} (m : M A) (P Q : A → Prop) E :
  tripleta (G:=G) m P E → (∀ a, P a → Q a) → tripleta (G:=G) m Q E.
Proof.
  intros Hm HPQ g. destruct (Hm g) as [(a & g' & Hr & Ha)|Hr]; [|by right].
  left. exists a, g'. auto.
Qed.

Lemma tripleta_parcial {A} (m : M A) P E g a g' :
  tripleta (G:=G) m P E → m g = (Some a, g') → P a.
Proof.
  intros Hm Hr. destruct (Hm g) as [(a' & g'' & Hr' & Ha)|(g'' & Hr' & _)];
    congruence.
Qed.

Lemma tripleta_total {A} (m : M A) P E g :
  tripleta (G:=G) m P E → ¬ E → ∃ a g', m g = (Some a, g') ∧ P a.
Proof. intros Hm HE. destruct (Hm g) as [?|(g' & _ & He)]; [done|tauto]. Qed.

Lemma tripleta_lift_option {A} (o : option A) E :
  (o = None → E) → tripleta (G:=G) (lift_option o) (λ a, o = Some a) E.
Proof.
  intros He g. destruct o as [a|]; simpl.
  - left. by exists a, g.
  - right. exists g. auto.
Qed.

Lemma tripleta_choice a n p E :
  a ≠ [] →
  tripleta (np_choice a n p) (λ v, length v = n ∧ ∀ x, x ∈ v → x ∈ a) E.
Proof.
  intros Ha g. left. unfold np_choice. eexists _, _. split; [done|]. split.
  - by apply choice_length.
  - intros x. by apply choice_elem.
Qed.

Lemma tripleta_randint lo hi n E :
  (lo < hi)%Z →
  tripleta (np_randint lo hi n)
    (λ v, length v = n ∧
          ∀ x, x ∈ v → ∃ z : Z, x = VNum (inject_Z z) ∧ (lo <= z < hi)%Z) E.
Proof.
  intros Hlt g. left. unfold np_randint. eexists _, _. split; [done|]. split.
  - rewrite length_map. by apply randint_length.
  - intros x (z & -> & Hz)%list_elem_of_fmap. exists z. split; [done|].
    by eapply randint_range.
Qed.

Lemma tripleta_uniform lo hi n E :
  lo < hi →
  tripleta (np_uniform lo hi n)
    (λ v, length v = n ∧ ∀ x, x ∈ v → ∃ q : Q, x = VNum q ∧ lo <= q ∧ q < hi) E.
Proof.
  intros Hlt g. left. unfold np_uniform. eexists _, _. split; [done|]. split.
  - rewrite length_map. by apply uniform_length.
  - intros x (q & -> & Hq)%list_elem_of_fmap. exists q. split; [done|].
    by eapply uniform_range.
Qed.

(** *** The blocks of [procesar_datos] *)

Lemma tripleta_si_falta c (gen : M (list valor)) t E :
  tripleta gen (λ v, length v = n_filas t ∧ (c ∈ rellenables → VNulo ∉ v)) E →
  tripleta (G:=G)
    (match columnas t !! c with
     | None => bind gen (λ v, ret (asignar c v t))
     | Some _ => ret t
     end)
    (λ t', completa [] t t' ∧ is_Some (columnas t' !! c)) E.
Proof.
  intros Hgen. destruct (columnas t !! c) as [v0|] eqn:Ec.
  - apply tripleta_ret. split; [apply completa_refl|by eexists].
  - eapply tripleta_bind; [exact Hgen|]. intros v [Hl Hn].
    apply tripleta_ret. split.
    + by apply completa_asignar_nueva.
    + simpl. rewrite lookup_insert_eq. by eexists.
Qed.

Lemma inv_paso L a t1 tk tk' c :
  inv L a t1 tk → completa [] tk tk' → is_Some (columnas tk' !! c) →
  inv (c :: L) a t1 tk'.
Proof.
  intros (Hc & Hp & Ha) Hs Hn. split; [|split].
  - change (completa ([] ++ []) t1 tk'). eapply completa_trans; [done..|].
    intros ? _ ?%elem_of_nil. done.
  - intros c' [->|Hc']%elem_of_cons; [done|].
    eapply co_dom; [done|]. by apply Hp.
  - eapply co_conserva; [done| |done]. by intros ?%elem_of_nil.
Qed.

Lemma sin_nulo_choice (a v : list valor) :
  VNulo ∉ a → (∀ x, x ∈ v → x ∈ a) → VNulo ∉ v.
Proof. intros Ha Hv Hin. by apply Ha, Hv. Qed.

Lemma sin_nulo_uniform (lo hi : Q) (v : list valor) :
  (∀ x, x ∈ v → ∃ q : Q, x = VNum q ∧ lo <= q ∧ q < hi) → VNulo ∉ v.
Proof. intros Hv Hin. by destruct (Hv _ Hin) as (q & ? & _). Qed.

Lemma tripleta_asegurar_sintomas l L a t1 tk E :
  inv L a t1 tk →
  tripleta (asegurar_sintomas l tk) (inv (rev l ++ L) a t1) E.
Proof.
  revert L tk. induction l as [|s l IH]; intros L tk Hinv; simpl.
  - by apply tripleta_ret.
  - eapply tripleta_bind.
    + apply tripleta_si_falta.
      eapply tripleta_consecuencia; [apply tripleta_choice; done|].
      intros v [Hl Hv]. split; [done|]. intros _.
      eapply sin_nulo_choice; [|exact Hv].
      intros Hin. repeat (apply elem_of_cons in Hin as [Hin|Hin]; [done|]).
      by apply elem_of_nil in Hin.
    + intros t' [Hc Hs]. simpl. rewrite <- app_assoc. simpl.
      apply IH. by eapply inv_paso.
Qed.

Lemma no_rellenable c :
  c ∈ ["mortalidad"; "age_years"; "grupo_edad"]%string → c ∉ rellenables.
Proof.
  intros Hc Hr.
  repeat (apply elem_of_cons in Hc as [->|Hc];
          [repeat (apply elem_of_cons in Hr as [Hr|Hr]; [done|]);
           by apply elem_of_nil in Hr|]).
  by apply elem_of_nil in Hc.
Qed.

Lemma cut_valor_None bs ls x :
  cut_valor bs ls x = None → ∃ s, x = VStr s.
Proof.
  destruct x as [q|s|]; simpl; [|by eexists|done].
  by destruct (_ || _).
Qed.

(** [cut] raises only on a string in the column. *)
Lemma cut_None bs ls col :
  cut bs ls col = None → ∃ s, VStr s ∈ col.
Proof.
  unfold cut. intros (x & Hx & Hn)%mapM_None%Exists_exists.
  apply cut_valor_None in Hn as [s ->]. by exists s.
Qed.

Lemma edad_ok_fuente t a s :
  edad_ok t a → VStr s ∈ a → VStr s ∈ age_fuente t.
Proof.
  unfold edad_ok, age_fuente.
  destruct (columnas t !! "age_years") as [a0|]; [by intros ->|].
  destruct (columnas t !! "age") as [a0|]; [by intros ->|].
  intros [_ Hz] Hin. by destruct (Hz _ Hin) as (z & ? & _).
Qed.

(** The whole of [procesar_datos]: it returns a normalisation of its
    argument, or raises, and then the age column held a string. *)
Lemma procesar_datos_tripleta (t : DataFrame) :
  tripleta (procesar_datos t) (normalizada t) (∃ s, VStr s ∈ age_fuente t).
Proof.
  unfold procesar_datos.
  (* mortalidad *)
  apply tripleta_bind with
    (P := λ t1, ∃ m, t1 = asignar "mortalidad" m t ∧ mortalidad_ok t m ∧
                     (bien_formada t → length m = n_filas t)).
  { destruct (columnas t !! "outcome") as [o|] eqn:Eo.
    - apply tripleta_ret. exists (map (igual_a "Death") o).
      split; [done|]. split; [split|].
      + intros x (y & -> & _)%list_elem_of_fmap.
        destruct y; simpl; auto. destruct (String.eqb _ _); auto.
      + intros o' Ho'. congruence.
      + intros Hw. rewrite length_map. by eapply Hw.
    - eapply tripleta_bind; [apply tripleta_choice; done|].
      intros v [Hl Hv]. apply tripleta_ret. exists v.
      split; [done|]. split; [split|done].
      + intros x Hx. apply Hv in Hx.
        repeat (apply elem_of_cons in Hx as [->|Hx]; [auto|]).
        by apply elem_of_nil in Hx.
      + intros o' Ho'. congruence. }
  intros t1 (m & Ht1 & Hm & Hlm).
  assert (Hc1 : completa ["mortalidad"%string] t t1).
  { subst t1. apply completa_asignar; [done|]. apply no_rellenable. set_solver. }
  assert (Hm1 : columnas t1 !! "mortalidad" = Some m).
  { subst t1. simpl. by rewrite lookup_insert_eq. }
  assert (Hmarco : ∀ c, c ≠ "mortalidad"%string → columnas t1 !! c = columnas t !! c).
  { intros c Hc. subst t1. simpl. by rewrite lookup_insert_ne. }
  assert (Hf1 : n_filas t1 = n_filas t) by (by subst t1).
  clear Ht1.
  (* age_years *)
  apply tripleta_bind with (P := λ t2, ∃ a, inv ["age_years"%string] a t1 t2 ∧ edad_ok t a).
  { unfold edad_ok. rewrite <- !(Hmarco "age_years"), <- !(Hmarco "age"), <- Hf1 by done.
    destruct (columnas t1 !! "age_years") as [a0|] eqn:E1.
    - apply tripleta_ret. exists a0. split; [|done].
      split; [apply completa_refl|]. split; [|done].
      intros c ->%list_elem_of_singleton. by eexists.
    - destruct (columnas t1 !! "age") as [a0|] eqn:E2.
      + apply tripleta_ret. exists a0. split; [|done].
        split; [|split].
        * apply completa_asignar_nueva; [done| |].
          -- intros Hw. by eapply Hw.
          -- intros Hr. exfalso. revert Hr. apply no_rellenable. set_solver.
        * intros c ->%list_elem_of_singleton. simpl. rewrite lookup_insert_eq. by eexists.
        * simpl. by rewrite lookup_insert_eq.
      + eapply tripleta_bind; [apply tripleta_randint; lia|].
        intros v [Hl Hv]. apply tripleta_ret. exists v. split; [|done].
        split; [|split].
        * apply completa_asignar_nueva; [done|done|].
          intros Hr. exfalso. revert Hr. apply no_rellenable. set_solver.
        * intros c ->%list_elem_of_singleton. simpl. rewrite lookup_insert_eq. by eexists.
        * simpl. by rewrite lookup_insert_eq. }
  intros t2 (a & Hinv2 & Ha).
  (* bmi_calculado *)
  apply tripleta_bind with (P := inv ["bmi_calculado"; "age_years"]%string a t1).
  { eapply tripleta_consecuencia.
    - apply tripleta_si_falta.
      eapply tripleta_consecuencia; [apply (tripleta_uniform 18 35); done|].
      intros v [Hl Hv]. split; [done|]. intros _. by eapply sin_nulo_uniform.
    - intros t' [Hc Hs]. by eapply inv_paso. }
  intros t3 Hinv3.
  (* ct_blood *)
  apply tripleta_bind with
    (P := inv ["ct_blood"; "bmi_calculado"; "age_years"]%string a t1).
  { eapply tripleta_consecuencia.
    - apply tripleta_si_falta.
      eapply tripleta_consecuencia; [apply (tripleta_uniform 16 26); done|].
      intros v [Hl Hv]. split; [done|]. intros _. by eapply sin_nulo_uniform.
    - intros t' [Hc Hs]. by eapply inv_paso. }
  intros t4 Hinv4.
  (* fever, cough, chills, aches, vomit *)
  eapply tripleta_bind; [by apply tripleta_asegurar_sintomas|].
  intros t5 Hinv5. simpl in Hinv5.
  (* gender *)
  eapply tripleta_bind.
  { eapply tripleta_consecuencia.
    - apply tripleta_si_falta.
      eapply tripleta_consecuencia; [apply tripleta_choice; done|].
      intros v [Hl Hv]. split; [done|]. intros _.
      eapply sin_nulo_choice; [|exact Hv].
      intros Hin. repeat (apply elem_of_cons in Hin as [Hin|Hin]; [done|]).
      by apply elem_of_nil in Hin.
    - intros t' [Hc Hs]. eapply inv_paso; [exact Hinv5|exact Hc|exact Hs]. }
  intros t6 (Hc6 & Hp6 & Ha6).
  (* grupo_edad *)
  rewrite Ha6. simpl default.
  apply tripleta_bind with (P := λ gr, cut bins labels a = Some gr).
  { apply tripleta_lift_option. intros (s & Hs)%cut_None.
    exists s. by eapply edad_ok_fuente. }
  intros gr Hgr. cbv zeta.
  set (t7 := asignar "grupo_edad" gr t6).
  assert (Hc7 : completa ["grupo_edad"%string] t6 t7).
  { apply completa_asignar; [|apply no_rellenable; set_solver].
    intros Hw. rewrite <- (length_mapM _ _ _ Hgr). by eapply Hw. }
  (* cluster *)
  eapply tripleta_bind.
  { apply tripleta_si_falta.
    eapply tripleta_consecuencia; [apply tripleta_choice; done|].
    intros v [Hl Hv]. split; [done|]. intros _.
    eapply sin_nulo_choice; [|exact Hv].
    intros Hin. repeat (apply elem_of_cons in Hin as [Hin|Hin]; [done|]).
    by apply elem_of_nil in Hin. }
  intros t8 [Hc8 Hs8]. apply tripleta_ret.
  assert (Hsin : ∀ c : string, c ∉ ([] : list string)) by (by intros ? ?%elem_of_nil).
  assert (Hc78 : completa ["grupo_edad"%string] t6 t8).
  { change (completa (["grupo_edad"%string] ++ []) t6 t8).
    eapply completa_trans; [done..|]. auto. }
  split.
  - change (completa ((["mortalidad"%string] ++ []) ++ ["grupo_edad"%string]) t t8).
    eapply completa_trans; [|exact Hc78|].
    + eapply completa_trans; [done..|]. auto.
    + intros c Hc ->%list_elem_of_singleton. revert Hc. apply no_rellenable. set_solver.
  - intros c Hc.
    assert (Hcasos : c = "mortalidad"%string ∨ c = "grupo_edad"%string ∨
                     c = "cluster"%string ∨
                     c ∈ ["gender"; "vomit"; "aches"; "chills"; "cough"; "fever";
                          "ct_blood"; "bmi_calculado"; "age_years"]%string).
    { repeat (apply elem_of_cons in Hc as [->|Hc];
              [first [ by left | by (right; left) | by (right; right; left)
                     | right; right; right; esta ]|]).
      by apply elem_of_nil in Hc. }
    destruct Hcasos as [->|[->|[->|Hin]]].
    + eapply (co_dom _ _ _ Hc78), (co_dom _ _ _ Hc6). by eexists.
    + eapply (co_dom _ _ _ Hc8). subst t7. simpl. rewrite lookup_insert_eq. by eexists.
    + done.
    + eapply (co_dom _ _ _ Hc78). by apply Hp6.
  - exists m. split; [|done].
    eapply (co_conserva _ _ _ Hc78); [fuera|].
    eapply (co_conserva _ _ _ Hc6); [fuera|done].
  - exists a, gr. split; [|split; [done|split; [done|]]].
    + eapply (co_conserva _ _ _ Hc78); [fuera|done].
    + eapply (co_conserva _ _ _ Hc8); [fuera|].
      subst t7. simpl. by rewrite lookup_insert_eq.
Qed.

Lemma procesar_datos_normaliza base g t' g' :
  procesar_datos base g = (Some t', g') → normalizada base t'.
Proof. eapply tripleta_parcial, procesar_datos_tripleta. Qed.

(** Without a string in the age column the normaliser returns. *)
Lemma procesar_datos_exito base g :
  (∀ s, VStr s ∉ age_fuente base) →
  ∃ t' g', procesar_datos base g = (Some t', g') ∧ normalizada base t'.
Proof.
  intros Hs. eapply tripleta_total; [apply procesar_datos_tripleta|].
  intros (s & Hin). by eapply Hs.
Qed.

(** Columns other than [mortalidad] and [grupo_edad] that the input has
    are returned as they were. *)
Lemma procesar_datos_conserva base g t' g' c v :
  procesar_datos base g = (Some t', g') →
  c ≠ "mortalidad"%string → c ≠ "grupo_edad"%string →
  columnas base !! c = Some v → columnas t' !! c = Some v.
Proof.
  intros Hr Hm Hg Hv. apply procesar_datos_normaliza in Hr as [Hc _ _ _].
  eapply co_conserva; [exact Hc| |done].
  intros [->|[->|?%elem_of_nil]%elem_of_cons]%elem_of_cons; done.
Qed.

Lemma sin_nulo_mortalidad base m : mortalidad_ok base m → VNulo ∉ m.
Proof. intros [Hm _] Hin. by destruct (Hm _ Hin). Qed.

(** C7, amended: after normalisation every canonical column exists with
    one cell per row; [mortalidad] has no missing cell; a fill column the
    input lacked has no missing cell, and neither has [age_years] when the
    input had neither [age_years] nor [age]; a column the input had (other
    than [mortalidad] and [grupo_edad]) is kept cell for cell; and the age
    group of a row is a label whenever its age is a number in [0, 100). *)
Theorem procesar_datos_completa base g t' g' :
  bien_formada base →
  procesar_datos base g = (Some t', g') →
  n_filas t' = n_filas base ∧
  (∀ c, c ∈ canonicas →
     ∃ v, columnas t' !! c = Some v ∧ length v = n_filas base) ∧
  (∃ m, columnas t' !! "mortalidad" = Some m ∧ VNulo ∉ m) ∧
  (∀ c, c ∈ rellenables → columnas base !! c = None →
     ∃ v, columnas t' !! c = Some v ∧ VNulo ∉ v) ∧
  (columnas base !! "age_years" = None → columnas base !! "age" = None →
     ∃ a, columnas t' !! "age_years" = Some a ∧ VNulo ∉ a) ∧
  (∀ c v, c ≠ "mortalidad"%string → c ≠ "grupo_edad"%string →
     columnas base !! c = Some v → columnas t' !! c = Some v) ∧
  (∃ a gr, columnas t' !! "age_years" = Some a ∧
           columnas t' !! "grupo_edad" = Some gr ∧
           ∀ i q, a !! i = Some (VNum q) → 0 <= q → q < 100 →
                  ∃ l, gr !! i = Some (VStr l) ∧ l ∈ labels).
Proof.
  intros Hw Hr. pose proof (procesar_datos_normaliza _ _ _ _ Hr) as [Hc Hcan Hmo He].
  pose proof (co_forma _ _ _ Hc Hw) as Hw'.
  pose proof (co_filas _ _ _ Hc) as Hf.
  split; [done|]. split; [|split; [|split; [|split; [|split]]]].
  - intros c Hin. destruct (Hcan c Hin) as [v Hv]. exists v. split; [done|].
    rewrite <- Hf. by eapply Hw'.
  - destruct Hmo as (m & Hm & Hok). exists m. split; [done|].
    by eapply sin_nulo_mortalidad.
  - intros c Hin Hnone.
    assert (Hcan' : c ∈ canonicas).
    { repeat (apply elem_of_cons in Hin as [->|Hin]; [esta|]).
      by apply elem_of_nil in Hin. }
    destruct (Hcan c Hcan') as [v Hv]. exists v. split; [done|].
    by eapply (co_relleno _ _ _ Hc).
  - intros Hn1 Hn2. destruct He as (a & gr & Ha & Hok & _). exists a. split; [done|].
    unfold edad_ok in Hok. rewrite Hn1, Hn2 in Hok. destruct Hok as [_ Hz].
    intros Hin. by destruct (Hz _ Hin) as (z & ? & _).
  - intros c v Hm Hg Hv. by eapply procesar_datos_conserva.
  - destruct He as (a & gr & Ha & _ & Hcut & Hgr). exists a, gr.
    split; [done|]. split; [done|]. intros i q Hi Hq0 Hq100.
    apply mapM_Some in Hcut.
    destruct (Forall2_lookup_l _ _ _ _ _ Hcut Hi) as (y & Hy & Hxy).
    destruct (cut_valor_bins q) as (B1 & B2 & B3 & B4).
    destruct (Qlt_le_dec q 18); [|destruct (Qlt_le_dec q 40); [|destruct (Qlt_le_dec q 60)]].
    + rewrite B1 in Hxy by done. injection Hxy as <-. eexists. split; [done|]. esta.
    + rewrite B2 in Hxy by done. injection Hxy as <-. eexists. split; [done|]. esta.
    + rewrite B3 in Hxy by done. injection Hxy as <-. eexists. split; [done|]. esta.
    + rewrite B4 in Hxy by done. injection Hxy as <-. eexists. split; [done|]. esta.
Qed.

(** C8: the age group is the bin of the age, bins being right-open:
    17 is in "0-17", 18 and 39 in "18-39", 40 and 59 in "40-59", 60 in
    "60+"; and whatever the input held, the returned [grupo_edad] column is
    the cut of the returned [age_years] column. *)
Theorem grupo_edad_derivado base g t' g' :
  procesar_datos base g = (Some t', g') →
  (∃ a gr, columnas t' !! "age_years" = Some a ∧
           columnas t' !! "grupo_edad" = Some gr ∧
           cut [0; 18; 40; 60; 100] ["0-17"; "18-39"; "40-59"; "60+"]%string a = Some gr) ∧
  cut_valor bins labels (VNum 17) = Some (VStr "0-17") ∧
  cut_valor bins labels (VNum 18) = Some (VStr "18-39") ∧
  cut_valor bins labels (VNum 39) = Some (VStr "18-39") ∧
  cut_valor bins labels (VNum 40) = Some (VStr "40-59") ∧
  cut_valor bins labels (VNum 59) = Some (VStr "40-59") ∧
  cut_valor bins labels (VNum 60) = Some (VStr "60+") ∧
  (∀ q : Q,
     (0 <= q ∧ q < 18 → cut_valor bins labels (VNum q) = Some (VStr "0-17")) ∧
     (18 <= q ∧ q < 40 → cut_valor bins labels (VNum q) = Some (VStr "18-39")) ∧
     (40 <= q ∧ q < 60 → cut_valor bins labels (VNum q) = Some (VStr "40-59")) ∧
     (60 <= q ∧ q < 100 → cut_valor bins labels (VNum q) = Some (VStr "60+"))).
Proof.
  intros Hr. apply procesar_datos_normaliza in Hr as [_ _ _ (a & gr & Ha & _ & Hcut & Hgr)].
  split; [by exists a, gr|].
  repeat (split; [reflexivity|]). apply cut_valor_bins.
Qed.

(** *** The synthetic table and the loader *)

Lemma tripleta_debilitar {A} (m : M A) (P Q : A → Prop) (E E' : Prop) :
  tripleta (G:=G) m P E → (∀ a, P a → Q a) → (E → E') → tripleta (G:=G) m Q E'.
Proof.
  intros Hm HPQ HE g. destruct (Hm g) as [(a & g' & Hr & Ha)|(g' & Hr & He)].
  - left. exists a, g'. auto.
  - right. exists g'. auto.
Qed.

Lemma tripleta_seed s E : tripleta (np_seed s) (λ _, True) E.
Proof. intros g. left. by exists tt, (seed s). Qed.

Lemma cut_sin_nulo a gr :
  (∀ x, x ∈ a → ∃ q : Q, x = VNum q ∧ 0 <= q ∧ q < 100) →
  cut bins labels a = Some gr → VNulo ∉ gr.
Proof.
  intros Ha Hcut (i & Hi)%list_elem_of_lookup.
  apply mapM_Some in Hcut.
  destruct (Forall2_lookup_r _ _ _ _ _ Hcut Hi) as (x & Hx & Hxy).
  destruct (Ha x) as (q & -> & Hq0 & Hq100); [by eapply list_elem_of_lookup_2|].
  destruct (cut_valor_bins q) as (B1 & B2 & B3 & B4).
  destruct (Qlt_le_dec q 18); [|destruct (Qlt_le_dec q 40); [|destruct (Qlt_le_dec q 60)]].
  - by rewrite B1 in Hxy.
  - by rewrite B2 in Hxy.
  - by rewrite B3 in Hxy.
  - by rewrite B4 in Hxy.
Qed.

(** When the fill columns the input has hold no missing cell and its ages
    are numbers in [0, 100), the normalised table is fully populated. *)
Lemma normalizada_poblada base t :
  bien_formada base → normalizada base t →
  (∀ c v, c ∈ rellenables → columnas base !! c = Some v → VNulo ∉ v) →
  (∀ x, x ∈ age_fuente base → ∃ q : Q, x = VNum q ∧ 0 <= q ∧ q < 100) →
  poblada t.
Proof.
  intros Hw [Hc Hcan Hmo He] Hrel Hage c Hin.
  pose proof (co_forma _ _ _ Hc Hw) as Hw'.
  destruct (Hcan c Hin) as [v Hv]. exists v. split; [done|]. split; [by eapply Hw'|].
  destruct He as (a & gr & Ha & Hok & Hcut & Hgr).
  assert (Hnum : ∀ x, x ∈ a → ∃ q : Q, x = VNum q ∧ 0 <= q ∧ q < 100).
  { revert Hok Hage. unfold edad_ok, age_fuente.
    destruct (columnas base !! "age_years") as [a0|]; [by intros ->|].
    destruct (columnas base !! "age") as [a0|]; [by intros ->|].
    intros [_ Hz] _ x Hx. destruct (Hz x Hx) as (z & -> & Hz1 & Hz2).
    exists (inject_Z z). split; [done|]. unfold Qle, Qlt; simpl. lia. }
  assert (Hcasos : c = "mortalidad"%string ∨ c = "age_years"%string ∨
                   c = "grupo_edad"%string ∨ c ∈ rellenables).
  { revert Hin. clear. intros Hin.
    repeat (apply elem_of_cons in Hin as [->|Hin];
            [first [ by left | by (right; left) | by (right; right; left)
                   | right; right; right; esta ]|]).
    by apply elem_of_nil in Hin. }
  destruct Hcasos as [->|[->|[->|Hr]]].
  - destruct Hmo as (m & Hm & Hmok). assert (v = m) as -> by congruence.
    by eapply sin_nulo_mortalidad.
  - assert (v = a) as -> by congruence.
    intros Hx. by destruct (Hnum _ Hx) as (q & ? & _).
  - assert (v = gr) as -> by congruence. by eapply cut_sin_nulo.
  - destruct (columnas base !! c) as [v0|] eqn:E0.
    + assert (columnas t !! c = Some v0) as Hv0.
      { eapply (co_conserva _ _ _ Hc); [|done].
        intros Hx. apply (no_rellenable c); [|done].
        repeat (apply elem_of_cons in Hx as [->|Hx]; [esta|]).
        by apply elem_of_nil in Hx. }
      assert (v = v0) as -> by congruence. by eapply Hrel.
    + by eapply (co_relleno _ _ _ Hc).
Qed.

Ltac sin_nulo_de Hv :=
  let Hin := fresh "Hin" in
  intros Hin; apply Hv in Hin;
  repeat (apply elem_of_cons in Hin as [Hin|Hin]; [discriminate|]);
  by apply elem_of_nil in Hin.

(** [crear_datos_ejemplo] never raises: it returns 500 fully populated
    rows. *)
Lemma crear_datos_ejemplo_tripleta :
  tripleta crear_datos_ejemplo
    (λ t, n_filas t = 500%nat ∧ poblada t ∧ is_Some (columnas t !! "paciente_id"))
    False.
Proof.
  unfold crear_datos_ejemplo.
  eapply tripleta_bind; [apply tripleta_seed|]. intros _ _. cbv zeta.
  eapply tripleta_bind; [apply tripleta_randint; lia|]. intros age_years [Lage Hage].
  eapply tripleta_bind; [apply tripleta_choice; done|]. intros gender [Lgen Hgen].
  eapply tripleta_bind; [apply (tripleta_uniform 18 35); done|]. intros bmi [Lbmi Hbmi].
  eapply tripleta_bind; [apply (tripleta_uniform 16 26); done|]. intros ctb [Lctb Hctb].
  eapply tripleta_bind; [apply tripleta_choice; done|]. intros fever [Lfev Hfev].
  eapply tripleta_bind; [apply tripleta_choice; done|]. intros cough [Lcou Hcou].
  eapply tripleta_bind; [apply tripleta_choice; done|]. intros chills [Lchi Hchi].
  eapply tripleta_bind; [apply tripleta_choice; done|]. intros aches [Lach Hach].
  eapply tripleta_bind; [apply tripleta_choice; done|]. intros vomit [Lvom Hvom].
  eapply tripleta_bind; [apply tripleta_choice; done|]. intros mortalidad [Lmor Hmor].
  set (base := Build_DataFrame _ _).
  assert (Hw : bien_formada base).
  { intros c v Hcv. subst base. simpl in *.
    repeat (apply lookup_insert_Some in Hcv as [[<- <-]|[? Hcv]];
            [first [ done | unfold rango_ids; by rewrite length_map, length_seq ]|]).
    by rewrite lookup_empty in Hcv. }
  assert (Hage' : columnas base !! "age_years" = Some age_years).
  { subst base. simpl. by simplify_map_eq. }
  assert (Hid : is_Some (columnas base !! "paciente_id")).
  { subst base. simpl. simplify_map_eq. by eexists. }
  assert (Hrel : ∀ c v, c ∈ rellenables → columnas base !! c = Some v → VNulo ∉ v).
  { intros c v Hc Hcv. subst base. simpl in *.
    repeat (apply elem_of_cons in Hc as [->|Hc];
            [simplify_map_eq;
             first [ sin_nulo_de Hgen | sin_nulo_de Hfev | sin_nulo_de Hcou
                   | sin_nulo_de Hchi | sin_nulo_de Hach | sin_nulo_de Hvom
                   | by eapply sin_nulo_uniform ]|]).
    by apply elem_of_nil in Hc. }
  assert (Hnum : ∀ x, x ∈ age_fuente base → ∃ q : Q, x = VNum q ∧ 0 <= q ∧ q < 100).
  { unfold age_fuente. rewrite Hage'. intros x Hx.
    destruct (Hage x Hx) as (z & -> & Hz1 & Hz2).
    exists (inject_Z z). split; [done|]. unfold Qle, Qlt; simpl. lia. }
  eapply tripleta_debilitar; [apply procesar_datos_tripleta| |].
  - intros t Hn. split; [|split].
    + by rewrite (co_filas _ _ _ (no_completa _ _ Hn)).
    + by eapply normalizada_poblada.
    + by eapply (co_dom _ _ _ (no_completa _ _ Hn)).
  - intros (s & Hs). by destruct (Hnum _ Hs) as (q & ? & _).
Qed.

(** C9: when reading the file raises, the loader does not propagate the
    failure: it returns the synthetic table of 500 fully populated rows,
    the same whatever the generator state was (the seed is fixed); and for
    any outcome of the read the loader returns a table. *)
Theorem cargar_datos_recupera (g : G) :
  (∃ t g', cargar_datos None g = (Some t, g') ∧
           crear_datos_ejemplo (seed 42) = (Some t, g') ∧
           n_filas t = 500%nat ∧ poblada t) ∧
  (∀ g2 : G, cargar_datos None g2 = cargar_datos None g) ∧
  (∀ lectura, ∃ t g', cargar_datos lectura g = (Some t, g')).
Proof.
  assert (Hcrear : ∀ g0 : G, ∃ t g', crear_datos_ejemplo g0 = (Some t, g') ∧
            n_filas t = 500%nat ∧ poblada t).
  { intros g0.
    destruct (tripleta_total _ _ _ g0 crear_datos_ejemplo_tripleta) as (t & g' & Hr & Hn & Hp & _);
      [tauto|]. by exists t, g'. }
  assert (Hsemilla : ∀ g0 : G, crear_datos_ejemplo g0 = crear_datos_ejemplo (seed 42)).
  { intros g0. reflexivity. }
  split; [|split].
  - destruct (Hcrear (seed 42)) as (t & g' & Hr & Hn & Hp).
    exists t, g'. split; [|done].
    unfold cargar_datos, try_except. simpl. by rewrite Hsemilla.
  - intros g2. unfold cargar_datos, try_except. simpl.
    by rewrite (Hsemilla g2), (Hsemilla g).
  - intros [base|]; unfold cargar_datos, try_except; simpl.
    + unfold bind at 1. simpl.
      destruct (procesar_datos base g) as [[t|] g1] eqn:Hp.
      * by exists t, g1.
      * destruct (Hcrear g1) as (t & g' & Hr & _). by exists t, g'.
    + destruct (Hcrear g) as (t & g' & Hr & _). by exists t, g'.
Qed.

End Tripletas.

(** *** Runs on concrete tables *)

Import Generador.

Ltac lookup_concreto Hcv :=
  simpl in Hcv;
  repeat (apply lookup_insert_Some in Hcv as [[<- <-]|[? Hcv]]; [done|]);
  by rewrite lookup_empty in Hcv.

Lemma tabla_con_hueco_bien_formada : bien_formada tabla_con_hueco.
Proof. intros c v Hcv. lookup_concreto Hcv. Qed.

Lemma tabla_canonica_bien_formada : bien_formada tabla_canonica.
Proof. intros c v Hcv. lookup_concreto Hcv. Qed.

Lemma tabla_canonica_poblada : poblada tabla_canonica.
Proof.
  intros c Hc.
  repeat (apply elem_of_cons in Hc as [->|Hc];
          [eexists; split; [vm_compute; reflexivity|split; [reflexivity|fuera]]|]).
  by apply elem_of_nil in Hc.
Qed.

(** C4 fails on the code: a canonical table without an [outcome] column
    gets its [mortalidad] column drawn afresh.  Here [1; 1] becomes
    [0; 1], every other canonical column apart from the age group staying
    as it was. *)
Theorem procesar_datos_redibuja_mortalidad :
  poblada tabla_canonica ∧
  columnas tabla_canonica !! "outcome" = None ∧
  columnas tabla_canonica !! "mortalidad" = Some [VNum 1; VNum 1] ∧
  ∃ t' g',
    procesar_datos tabla_canonica 7%Z = (Some t', g') ∧
    columnas t' !! "mortalidad" = Some [VNum 0; VNum 1] ∧
    columnas t' !! "mortalidad" ≠ columnas tabla_canonica !! "mortalidad" ∧
    ∀ c, c ∈ canonicas → c ≠ "mortalidad"%string →
         columnas t' !! c = columnas tabla_canonica !! c.
Proof.
  split; [apply tabla_canonica_poblada|].
  split; [vm_compute; reflexivity|]. split; [vm_compute; reflexivity|].
  destruct (procesar_datos tabla_canonica 7%Z) as [[t'|] g'] eqn:Hr;
    [|vm_compute in Hr; discriminate].
  exists t', g'. split; [done|].
  assert (Hm : columnas t' !! "mortalidad" = Some [VNum 0; VNum 1]).
  { vm_compute in Hr. injection Hr as <- _. vm_compute. reflexivity. }
  split; [done|]. split.
  - rewrite Hm. vm_compute. discriminate.
  - intros c Hc Hne.
    destruct (decide (c = "grupo_edad"%string)) as [->|Hg].
    + vm_compute in Hr. injection Hr as <- _. vm_compute. reflexivity.
    + destruct (tabla_canonica_poblada c Hc) as (v & Hv & _).
      rewrite Hv. by eapply procesar_datos_conserva.
Qed.

(** C7, as the specification states it, fails: a cell that is empty in a
    column the input has stays empty. *)
Lemma procesar_datos_deja_huecos :
  bien_formada tabla_con_hueco ∧
  ∃ t' g',
    procesar_datos tabla_con_hueco 7%Z = (Some t', g') ∧
    columnas t' !! "gender" = Some [VStr "f"; VNulo] ∧
    ¬ poblada t'.
Proof.
  split; [apply tabla_con_hueco_bien_formada|].
  destruct (procesar_datos tabla_con_hueco 7%Z) as [[t'|] g'] eqn:Hr;
    [|vm_compute in Hr; discriminate].
  exists t', g'. split; [done|].
  assert (Hg : columnas t' !! "gender" = Some [VStr "f"; VNulo]).
  { eapply procesar_datos_conserva; [exact Hr|done|done|].
    vm_compute. reflexivity. }
  split; [done|]. intros Hp.
  destruct (Hp "gender"%string) as (v & Hv & _ & Hnulo); [esta|].
  rewrite Hg in Hv. injection Hv as <-. apply Hnulo. esta.
Qed.

Lemma procesar_datos_completa_witness :
  bien_formada tabla_con_hueco ∧
  match procesar_datos tabla_con_hueco 7%Z with
  | (Some t', _) => n_filas t' = n_filas tabla_con_hueco
  | (None, _) => False
  end.
Proof.
  split; [apply tabla_con_hueco_bien_formada|].
  destruct (procesar_datos tabla_con_hueco 7%Z) as [[t'|] g'] eqn:Hr.
  - exact (proj1 (procesar_datos_completa tabla_con_hueco 7%Z t' g'
                    tabla_con_hueco_bien_formada Hr)).
  - vm_compute in Hr. discriminate.
Defined.

Lemma grupo_edad_derivado_witness :
  match procesar_datos tabla_canonica 7%Z with
  | (Some t', _) =>
      ∃ a gr, columnas t' !! "age_years" = Some a ∧
              columnas t' !! "grupo_edad" = Some gr ∧
              cut [0; 18; 40; 60; 100] ["0-17"; "18-39"; "40-59"; "60+"]%string a = Some gr
  | (None, _) => False
  end.
Proof.
  destruct (procesar_datos tabla_canonica 7%Z) as [[t'|] g'] eqn:Hr.
  - exact (proj1 (grupo_edad_derivado tabla_canonica 7%Z t' g' Hr)).
  - vm_compute in Hr. discriminate.
Defined.

(** An age of 100 lies outside every bin: its group is empty. *)
Example tabla_centenaria_sin_grupo :
  ∃ t' g',
    procesar_datos tabla_centenaria 7%Z = (Some t', g') ∧
    columnas t' !! "age_years" = Some [VNum 100] ∧
    columnas t' !! "grupo_edad" = Some [VNulo].
Proof.
  destruct (procesar_datos tabla_centenaria 7%Z) as [[t'|] g'] eqn:Hr;
    [|vm_compute in Hr; discriminate].
  exists t', g'. split; [done|].
  vm_compute in Hr. injection Hr as <- _. split; vm_compute; reflexivity.
Qed.

End NormalizerFacts.

(** ** Further properties of the risk scorer *)

Module ScorerExtras.
Import Scorer Rubric ScorerFacts.


Import Predictor.

Ltac convertir :=
  repeat match goal with
         | H : (_ >=? _)%Z = true |- _ => apply Z.geb_le in H
         | H : (_ >=? _)%Z = false |- _ => rewrite Z.geb_leb in H; apply Z.leb_gt in H
         | H : Qltb _ _ = true |- _ => apply Qltb_lt in H
         | H : Qltb _ _ = false |- _ => apply Qltb_ge in H
         | H : Qgeb _ _ = true |- _ => apply Qgeb_ge in H
         | H : Qgeb _ _ = false |- _ => apply Qgeb_lt in H
         | H : String.eqb _ _ = true |- _ => apply String.eqb_eq in H
         | H : String.eqb _ _ = false |- _ => apply String.eqb_neq in H
         end.

Ltac partir_con_casos :=
  repeat match goal with
         | |- context [if ?c then _ else _] =>
             let E := fresh "E" in destruct c eqn:E
         end;
  convertir.

(** A factor adds nothing exactly when none of its bands applies. *)
Lemma aporte_cero (f : factor) (x : Entrada) :
  aporte f x == 0 ↔ sin_banda f x.
Proof.
  destruct f; unfold aporte, bandas, primera_banda, sin_banda;
    partir_con_casos;
    (split;
     [ intros H0;
       first [ by (exfalso; vm_compute in H0)
             | repeat split; first [ lia | lra | congruence | done ] ]
     | intros Hs;
       first [ reflexivity
             | exfalso; first [ lia | lra | tauto | (destruct Hs; lra)
                              | (destruct Hs as (? & ? & ?); congruence)
                              | congruence ] ] ]).
Qed.

(** The score is 0 exactly when no band of any of the eleven factors
    applies; in particular a category string other than the recognised
    ones counts for nothing. *)
Theorem puntuar_cero (x : Entrada) :
  puntuar x == 0 ↔ ∀ f, sin_banda f x.
Proof.
  rewrite puntuar_exacto. unfold spec_total, factores. cbn [map suma fold_right].
  pose proof (aporte_cotas FEdad x). pose proof (aporte_cotas FCtBlood x).
  pose proof (aporte_cotas FBmi x). pose proof (aporte_cotas FGenero x).
  pose proof (aporte_cotas FTemperatura x). pose proof (aporte_cotas FTos x).
  pose proof (aporte_cotas FEscalofrios x). pose proof (aporte_cotas FDolores x).
  pose proof (aporte_cotas FVomitos x). pose proof (aporte_cotas FDificultad x).
  pose proof (aporte_cotas FSaturacion x).
  split.
  - intros Hs f. apply aporte_cero. destruct f; lra.
  - intros Hs.
    pose proof (proj2 (aporte_cero FEdad x) (Hs _)).
    pose proof (proj2 (aporte_cero FCtBlood x) (Hs _)).
    pose proof (proj2 (aporte_cero FBmi x) (Hs _)).
    pose proof (proj2 (aporte_cero FGenero x) (Hs _)).
    pose proof (proj2 (aporte_cero FTemperatura x) (Hs _)).
    pose proof (proj2 (aporte_cero FTos x) (Hs _)).
    pose proof (proj2 (aporte_cero FEscalofrios x) (Hs _)).
    pose proof (proj2 (aporte_cero FDolores x) (Hs _)).
    pose proof (proj2 (aporte_cero FVomitos x) (Hs _)).
    pose proof (proj2 (aporte_cero FDificultad x) (Hs _)).
    pose proof (proj2 (aporte_cero FSaturacion x) (Hs _)).
    lra.
Qed.

Lemma puntuar_un_factor (f : factor) (x y : Entrada) :
  (∀ g, g ≠ f → coincide g x y) →
  puntuar x - aporte f x == puntuar y - aporte f y.
Proof.
  intros Hotros. rewrite !puntuar_exacto.
  assert (Hg : ∀ g, g ≠ f → aporte g x == aporte g y).
  { intros g Hne. by rewrite (coincide_aporte g x y) by auto. }
  unfold spec_total, factores. cbn [map suma fold_right].
  destruct f;
    repeat match goal with
           | |- context [aporte ?g x] =>
               rewrite (Hg g) by discriminate
           end; ring.
Qed.

(** Changing one factor, the other ten held fixed, moves the score by at
    most that factor's top increment (3.0 at most). *)
Theorem puntuar_sensibilidad (f : factor) (x y : Entrada) :
  (∀ g, g ≠ f → coincide g x y) →
  puntuar x <= puntuar y + tope f ∧ puntuar y <= puntuar x + tope f ∧
  tope f <= 3.
Proof.
  intros Hotros. pose proof (puntuar_un_factor f x y Hotros) as He.
  pose proof (aporte_cotas f x) as [Hx0 Hx1].
  pose proof (aporte_cotas f y) as [Hy0 Hy1].
  repeat split; try lra. destruct f; apply Qle_bool_imp_le; reflexivity.
Qed.

Lemma puntuar_sensibilidad_witness :
  puntuar ejemplo_leve <= puntuar ejemplo_leve_febril + tope FTemperatura.
Proof.
  apply (puntuar_sensibilidad FTemperatura ejemplo_leve ejemplo_leve_febril).
  intros g Hg. destruct g; try reflexivity. now destruct Hg.
Defined.

Lemma puntuar_mono_aporte (f : factor) (x y : Entrada) :
  (∀ g, g ≠ f → coincide g x y) →
  aporte f x <= aporte f y → puntuar x <= puntuar y.
Proof.
  intros Hotros Ha. pose proof (puntuar_un_factor f x y Hotros). lra.
Qed.

(** The score never decreases when the age or the temperature rises, nor
    when the blood-cell count or the oxygen saturation falls, the other
    ten inputs held fixed. *)
Theorem puntuar_creciente_numerico (x y : Entrada) :
  ((∀ g, g ≠ FEdad → coincide g x y) → (edad x <= edad y)%Z →
     puntuar x <= puntuar y) ∧
  ((∀ g, g ≠ FTemperatura → coincide g x y) → temperatura x <= temperatura y →
     puntuar x <= puntuar y) ∧
  ((∀ g, g ≠ FCtBlood → coincide g x y) → ct_blood y <= ct_blood x →
     puntuar x <= puntuar y) ∧
  ((∀ g, g ≠ FSaturacion → coincide g x y) →
     saturacion_oxigeno y <= saturacion_oxigeno x →
     puntuar x <= puntuar y).
Proof.
  repeat split; intros Hotros Hord;
    (eapply puntuar_mono_aporte; [exact Hotros|]);
    unfold aporte, bandas, primera_banda; partir_con_casos;
    first [ apply Qle_bool_imp_le; reflexivity | exfalso; lia | exfalso; lra ].
Qed.

(** The body-mass index is the one numeric input the score is not
    monotone in: from underweight (below 18.5) to the normal range
    (18.5 to 30) the score drops by exactly 1.0. *)
Theorem puntuar_bmi_bajo_peso (x y : Entrada) :
  (∀ g, g ≠ FBmi → coincide g x y) →
  bmi x < 18.5 → 18.5 <= bmi y → bmi y <= 30 →
  puntuar x == puntuar y + 1.
Proof.
  intros Hotros Hx Hy1 Hy2. pose proof (puntuar_un_factor FBmi x y Hotros) as He.
  assert (Hax : aporte FBmi x == 1).
  { unfold aporte, bandas, primera_banda. partir_con_casos; first [reflexivity | lra]. }
  assert (Hay : aporte FBmi y == 0).
  { unfold aporte, bandas, primera_banda. partir_con_casos; first [reflexivity | lra]. }
  lra.
Qed.

Lemma puntuar_bmi_bajo_peso_witness :
  puntuar ejemplo_delgado == puntuar ejemplo_normal + 1.
Proof.
  apply (puntuar_bmi_bajo_peso ejemplo_delgado ejemplo_normal).
  - intros g Hg. destruct g; try reflexivity. now destruct Hg.
  - reflexivity.
  - apply Qle_bool_imp_le; reflexivity.
  - apply Qle_bool_imp_le; reflexivity.
Defined.

Lemma entre_quince (s : Q) : s / 15 == s * (1 # 15).
Proof. reflexivity. Qed.

(** The probability never decreases with the score; it is the ceiling
    0.95 exactly from 14.25 up, the floor 0.05 exactly up to 0.75, and
    [score / 15] in between. *)
Theorem probabilidad_monotona (s s' : Q) :
  (s <= s' → probabilidad s <= probabilidad s') ∧
  (probabilidad s == 0.95 ↔ 14.25 <= s) ∧
  (probabilidad s == 0.05 ↔ s <= 0.75) ∧
  (0.75 <= s ∧ s <= 14.25 → probabilidad s == s / 15).
Proof.
  pose proof (entre_quince s) as Hs. pose proof (entre_quince s') as Hs'.
  unfold probabilidad, py_min, py_max.
  destruct (Qltb 0.05 (s / 15)) eqn:A; [apply Qltb_lt in A | apply Qltb_ge in A];
  (destruct (Qltb 0.05 (s' / 15)) eqn:A'; [apply Qltb_lt in A' | apply Qltb_ge in A']);
  repeat match goal with
         | |- context [Qltb ?a ?b] =>
             let E := fresh "E" in
             destruct (Qltb a b) eqn:E;
             [apply Qltb_lt in E | apply Qltb_ge in E]
         end;
  repeat split; intros; try lra.
Qed.

(** The category and the probability shown together agree: the highest
    category comes with a probability of at least 2/3, the lowest with one
    below 4/15, and the two middle ones lie in between. *)
Theorem evaluar_coherente (x : Entrada) :
  ∃ score p ev,
    evaluar x = (score, p, ev) ∧ score = puntuar x ∧
    0.05 <= p ∧ p <= 0.95 ∧
    (categoria ev = "ALTO RIESGO"%string → 2 # 3 <= p) ∧
    (categoria ev = "RIESGO MODERADO-ALTO"%string → 7 # 15 <= p ∧ p < 2 # 3) ∧
    (categoria ev = "RIESGO MODERADO"%string → 4 # 15 <= p ∧ p < 7 # 15) ∧
    (categoria ev = "BAJO RIESGO"%string → p < 4 # 15).
Proof.
  unfold evaluar. cbv zeta. set (s := puntuar x).
  exists s, (probabilidad s), (clasificar s). split; [done|]. split; [done|].
  pose proof (entre_quince s) as Hs.
  unfold probabilidad, py_min, py_max, clasificar.
  destruct (Qltb 0.05 (s / 15)) eqn:A; [apply Qltb_lt in A | apply Qltb_ge in A];
  repeat match goal with
         | |- context [Qltb ?a ?b] =>
             let E := fresh "E" in
             destruct (Qltb a b) eqn:E;
             [apply Qltb_lt in E | apply Qltb_ge in E]
         end;
  repeat match goal with
         | |- context [Qgeb ?a ?b] =>
             let E := fresh "E" in
             destruct (Qgeb a b) eqn:E;
             [apply Qgeb_ge in E | apply Qgeb_lt in E]
         end;
  cbn [categoria];
  repeat split; intros; try discriminate; try lra.
Qed.

End ScorerExtras.

(** ** Further properties of the data normaliser *)

Module NormalizerExtras.
Import Normalizer NormalizerFacts Relleno.

Lemma marco_refl t : marco t t.
Proof. split; [done|]. split; [done|]. intros c v Hn Hs. congruence. Qed.

Lemma marco_asignar t tk c v :
  marco t tk → c ∈ canonicas → dominio c v → marco t (asignar c v tk).
Proof.
  intros (Hf & Hm & Hd) Hc Hv. split; [done|]. split; simpl.
  - intros c' Hc'. rewrite lookup_insert_ne; [by apply Hm|]. by intros ->.
  - intros c' v' Hn. destruct (decide (c = c')) as [<-|Hne].
    + rewrite lookup_insert_eq. by intros [= <-].
    + rewrite lookup_insert_ne by done. by apply Hd.
Qed.

Section Marco.
Context {G : Type} `{Aleatorio G}.

Lemma tripleta_si_falta_marco c (gen : M (list valor)) t tk E :
  marco t tk → c ∈ canonicas →
  tripleta gen (dominio c) E →
  tripleta (G:=G)
    (match columnas tk !! c with
     | None => bind gen (λ v, ret (asignar c v tk))
     | Some _ => ret tk
     end)
    (marco t) E.
Proof.
  intros Hm Hc Hgen. destruct (columnas tk !! c) as [v0|].
  - by apply tripleta_ret.
  - eapply tripleta_bind; [exact Hgen|]. intros v Hv.
    apply tripleta_ret. by apply marco_asignar.
Qed.

Lemma tripleta_asegurar_sintomas_marco l t tk E :
  (∀ c, c ∈ l → c ∈ sintomas) → marco t tk →
  tripleta (asegurar_sintomas l tk) (marco t) E.
Proof.
  revert tk. induction l as [|s l IH]; intros tk Hl Hm; simpl.
  - by apply tripleta_ret.
  - eapply tripleta_bind.
    + apply tripleta_si_falta_marco; [exact Hm| |].
      * assert (Hs : s ∈ sintomas) by (apply Hl; esta).
        revert Hs. clear. intros Hs.
        repeat (apply elem_of_cons in Hs as [->|Hs]; [esta|]).
        by apply elem_of_nil in Hs.
      * eapply tripleta_consecuencia; [apply tripleta_choice; done|].
        intros v [_ Hv]. unfold dominio.
        rewrite bool_decide_eq_true_2 by (apply Hl; esta).
        intros x Hx. apply Hv in Hx.
        repeat (apply elem_of_cons in Hx as [->|Hx]; [auto|]).
        by apply elem_of_nil in Hx.
    + intros t' Ht'. apply IH; [|done]. intros c Hc. apply Hl. by right.
Qed.

(** [procesar_datos] touches canonical columns only, and what it draws
    for a column the input lacked lies in that column's domain. *)
Lemma procesar_datos_marco (t : DataFrame) :
  tripleta (procesar_datos t) (marco t) True.
Proof.
  unfold procesar_datos.
  apply tripleta_bind with (P := marco t).
  { destruct (columnas t !! "outcome") as [o|].
    - apply tripleta_ret. apply marco_asignar; [apply marco_refl|esta|done].
    - eapply tripleta_bind; [apply tripleta_choice; done|].
      intros v _. apply tripleta_ret.
      apply marco_asignar; [apply marco_refl|esta|done]. }
  intros t1 H1.
  apply tripleta_bind with (P := marco t).
  { destruct (columnas t1 !! "age_years") as [a0|]; [by apply tripleta_ret|].
    destruct (columnas t1 !! "age") as [a0|].
    - apply tripleta_ret. apply marco_asignar; [done|esta|done].
    - eapply tripleta_bind; [apply tripleta_randint; lia|].
      intros v _. apply tripleta_ret. apply marco_asignar; [done|esta|done]. }
  intros t2 H2.
  apply tripleta_bind with (P := marco t).
  { apply tripleta_si_falta_marco; [done|esta|].
    eapply tripleta_consecuencia; [apply (tripleta_uniform 18 35); done|].
    by intros v [_ Hv]. }
  intros t3 H3.
  apply tripleta_bind with (P := marco t).
  { apply tripleta_si_falta_marco; [done|esta|].
    eapply tripleta_consecuencia; [apply (tripleta_uniform 16 26); done|].
    by intros v [_ Hv]. }
  intros t4 H4.
  eapply tripleta_bind; [by apply tripleta_asegurar_sintomas_marco|].
  intros t5 H5.
  apply tripleta_bind with (P := marco t).
  { apply tripleta_si_falta_marco; [done|esta|].
    eapply tripleta_consecuencia; [apply tripleta_choice; done|].
    intros v [_ Hv] x Hx. apply Hv in Hx.
    repeat (apply elem_of_cons in Hx as [->|Hx]; [auto|]).
    by apply elem_of_nil in Hx. }
  intros t6 H6.
  eapply tripleta_bind; [by apply tripleta_lift_option|].
  intros gr _. cbv zeta.
  eapply tripleta_bind; [|intros t8 H8; apply tripleta_ret; exact H8].
  apply tripleta_si_falta_marco; [|esta|].
  - apply marco_asignar; [done|esta|done].
  - eapply tripleta_consecuencia; [apply tripleta_choice; done|].
    intros v [_ Hv] x Hx. apply Hv in Hx.
    repeat (apply elem_of_cons in Hx as [->|Hx]; [auto 6|]).
    by apply elem_of_nil in Hx.
Qed.

(** [procesar_datos] raises exactly when the column the age is taken
    from ([age_years], else [age]) holds a string. *)
Theorem procesar_datos_error (base : DataFrame) (g : G) :
  (procesar_datos base g).1 = None ↔ ∃ s, VStr s ∈ age_fuente base.
Proof.
  destruct (procesar_datos_tripleta base g) as [(t' & g' & Hr & Hn)|(g' & Hr & He)];
    rewrite Hr; simpl; [|by split].
  split; [done|]. intros (s & Hs). exfalso.
  destruct Hn as [_ _ _ (a & gr & _ & Hok & Hcut & _)].
  assert (Hin : VStr s ∈ a).
  { revert Hok Hs. unfold edad_ok, age_fuente.
    destruct (columnas base !! "age_years") as [a0|]; [by intros ->|].
    destruct (columnas base !! "age") as [a0|]; [by intros ->|].
    by intros _ ?%elem_of_nil. }
  assert (Hnone : cut bins labels a = None).
  { apply mapM_None, Exists_exists. by exists (VStr s). }
  congruence.
Qed.

(** [cargar_datos] on a file that could be read: without a string in the
    age column the result is the normalisation of the file's table; with
    one, the exception is swallowed and the result is the synthetic table,
    exactly as if the file had been unreadable. *)
Theorem cargar_datos_archivo (base : DataFrame) (g : G) :
  ((∀ s, VStr s ∉ age_fuente base) →
     cargar_datos (Some base) g = procesar_datos base g ∧
     ∃ t' g', procesar_datos base g = (Some t', g') ∧ n_filas t' = n_filas base) ∧
  ((∃ s, VStr s ∈ age_fuente base) →
     cargar_datos (Some base) g = cargar_datos None g).
Proof.
  assert (Hsemilla : ∀ g0 : G, crear_datos_ejemplo g0 = crear_datos_ejemplo (seed 42))
    by reflexivity.
  split.
  - intros Hs. destruct (procesar_datos_exito base g Hs) as (t' & g' & Hr & Hn).
    split.
    + unfold cargar_datos, try_except. simpl. unfold bind at 1. simpl. by rewrite Hr.
    + exists t', g'. split; [done|]. apply (co_filas _ _ _ (no_completa _ _ Hn)).
  - intros He. apply procesar_datos_error with (g := g) in He.
    destruct (procesar_datos base g) as [[t'|] g1] eqn:Hr; [done|].
    unfold cargar_datos, try_except. simpl. unfold bind at 1. simpl. rewrite Hr.
    by rewrite (Hsemilla g1), (Hsemilla g).
Qed.

(** The columns of the result are those of the input together with the
    twelve canonical ones; the row count and every non-canonical column
    are left as they were. *)
Theorem procesar_datos_columnas (base : DataFrame) (g : G) t' g' :
  procesar_datos base g = (Some t', g') →
  n_filas t' = n_filas base ∧
  (∀ c, is_Some (columnas t' !! c) ↔ is_Some (columnas base !! c) ∨ c ∈ canonicas) ∧
  (∀ c, c ∉ canonicas → columnas t' !! c = columnas base !! c).
Proof.
  intros Hr.
  pose proof (procesar_datos_normaliza _ _ _ _ Hr) as [Hc Hcan _ _].
  pose proof (tripleta_parcial _ _ _ _ _ _ (procesar_datos_marco base) Hr)
    as (Hf & Hm & _).
  split; [done|]. split; [|done].
  intros c. split.
  - intros Hs. destruct (decide (c ∈ canonicas)) as [|Hn]; [by right|].
    left. by rewrite <- (Hm c Hn).
  - intros [Hs|Hin]; [by eapply (co_dom _ _ _ Hc)|by apply Hcan].
Qed.

(** A column the input lacked is drawn within its domain: body-mass
    index in [18, 35), blood-cell count in [16, 26), symptoms "yes" or
    "no", gender "m" or "f", cluster 0 to 3; and the age, when the input
    had neither age column, is an integer in [18, 80). *)
Theorem procesar_datos_dominios (base : DataFrame) (g : G) t' g' :
  procesar_datos base g = (Some t', g') →
  (columnas base !! "bmi_calculado" = None →
     ∃ v, columnas t' !! "bmi_calculado" = Some v ∧
          ∀ x, x ∈ v → ∃ q : Q, x = VNum q ∧ 18 <= q ∧ q < 35) ∧
  (columnas base !! "ct_blood" = None →
     ∃ v, columnas t' !! "ct_blood" = Some v ∧
          ∀ x, x ∈ v → ∃ q : Q, x = VNum q ∧ 16 <= q ∧ q < 26) ∧
  (∀ c, c ∈ sintomas → columnas base !! c = None →
     ∃ v, columnas t' !! c = Some v ∧ ∀ x, x ∈ v → x = VStr "yes" ∨ x = VStr "no") ∧
  (columnas base !! "gender" = None →
     ∃ v, columnas t' !! "gender" = Some v ∧
          ∀ x, x ∈ v → x = VStr "m" ∨ x = VStr "f") ∧
  (columnas base !! "cluster" = None →
     ∃ v, columnas t' !! "cluster" = Some v ∧
          ∀ x, x ∈ v → x = VNum 0 ∨ x = VNum 1 ∨ x = VNum 2 ∨ x = VNum 3) ∧
  (columnas base !! "age_years" = None → columnas base !! "age" = None →
     ∃ v, columnas t' !! "age_years" = Some v ∧
          ∀ x, x ∈ v → ∃ z : Z, x = VNum (inject_Z z) ∧ (18 <= z < 80)%Z).
Proof.
  intros Hr.
  pose proof (procesar_datos_normaliza _ _ _ _ Hr) as [Hc Hcan _ He].
  pose proof (tripleta_parcial _ _ _ _ _ _ (procesar_datos_marco base) Hr)
    as (_ & _ & Hd).
  assert (Hgen : ∀ c, c ∈ canonicas → columnas base !! c = None →
            ∃ v, columnas t' !! c = Some v ∧ dominio c v).
  { intros c Hin Hn. destruct (Hcan c Hin) as [v Hv]. exists v. split; [done|].
    by eapply Hd. }
  repeat split.
  - intros Hn. by apply (Hgen "bmi_calculado"%string); [esta|].
  - intros Hn. by apply (Hgen "ct_blood"%string); [esta|].
  - intros c Hin Hn.
    destruct (Hgen c) as (v & Hv & Hdom); [|done|].
    + revert Hin. clear. intros Hin.
      repeat (apply elem_of_cons in Hin as [->|Hin]; [esta|]).
      by apply elem_of_nil in Hin.
    + exists v. split; [done|]. unfold dominio in Hdom.
      by rewrite bool_decide_eq_true_2 in Hdom.
  - intros Hn. by apply (Hgen "gender"%string); [esta|].
  - intros Hn. by apply (Hgen "cluster"%string); [esta|].
  - intros Hn1 Hn2. destruct He as (a & gr & Ha & Hok & _). exists a.
    split; [done|]. unfold edad_ok in Hok. rewrite Hn1, Hn2 in Hok. apply Hok.
Qed.

(** With an [outcome] column the mortality flag is computed row by row,
    without any draw: 1 where the outcome is the string "Death", 0
    everywhere else, a missing outcome included. *)
Theorem mortalidad_de_outcome (base : DataFrame) (g : G) t' g' o :
  procesar_datos base g = (Some t', g') →
  columnas base !! "outcome" = Some o →
  ∃ m, columnas t' !! "mortalidad" = Some m ∧ length m = length o ∧
       ∀ i x, o !! i = Some x →
         (x = VStr "Death" → m !! i = Some (VNum 1)) ∧
         (x ≠ VStr "Death" → m !! i = Some (VNum 0)).
Proof.
  intros Hr Ho.
  pose proof (procesar_datos_normaliza _ _ _ _ Hr) as [_ _ (m & Hm & _ & Hout) _].
  exists m. split; [done|]. rewrite (Hout o Ho). split; [by rewrite length_map|].
  intros i x Hi. change (map (igual_a "Death") o) with (igual_a "Death" <$> o).
  rewrite list_lookup_fmap, Hi. simpl. split.
  - by intros ->.
  - intros Hne. destruct x as [q|s|]; simpl; try done.
    destruct (String.eqb s "Death") eqn:Es; [|done].
    apply String.eqb_eq in Es. by subst.
Qed.

(** *** Normalising a normalised table *)

Lemma exacto_ret {A} (a : A) : exacto (G:=G) (ret a) a.
Proof. by intros g. Qed.

Lemma exacto_bind {A B} (m : M A) (k : A → M B) a b :
  exacto (G:=G) m a → exacto (G:=G) (k a) b → exacto (G:=G) (bind m k) b.
Proof. intros Hm Hk g. unfold bind. by rewrite Hm, Hk. Qed.

Lemma exacto_asegurar_sintomas l t :
  (∀ c, c ∈ l → is_Some (columnas t !! c)) →
  exacto (asegurar_sintomas l t) t.
Proof.
  induction l as [|s l IH]; intros Hl; simpl; [apply exacto_ret|].
  destruct (Hl s) as [v Hv]; [esta|]. rewrite Hv.
  eapply exacto_bind; [apply exacto_ret|]. apply IH.
  intros c Hc. apply Hl. by right.
Qed.

(** On a table that has an [outcome] column and every canonical column,
    [procesar_datos] draws nothing: it recomputes the mortality flag and
    the age group and returns. *)
Lemma procesar_datos_canonica t o a gr :
  columnas t !! "outcome" = Some o →
  columnas t !! "age_years" = Some a →
  (∀ c, c ∈ rellenables → is_Some (columnas t !! c)) →
  cut bins labels a = Some gr →
  exacto (procesar_datos t)
    (asignar "grupo_edad" gr (asignar "mortalidad" (map (igual_a "Death") o) t)).
Proof.
  intros Ho Ha Hrel Hcut. unfold procesar_datos. rewrite Ho.
  eapply exacto_bind; [apply exacto_ret|].
  set (t1 := asignar "mortalidad" _ t).
  assert (H1 : ∀ c, c ≠ "mortalidad"%string → columnas t1 !! c = columnas t !! c).
  { intros c Hc. subst t1. simpl. by rewrite lookup_insert_ne. }
  rewrite (H1 "age_years"%string), Ha by done.
  eapply exacto_bind; [apply exacto_ret|].
  destruct (Hrel "bmi_calculado"%string) as [v1 Hv1]; [esta|].
  rewrite (H1 "bmi_calculado"%string), Hv1 by done.
  eapply exacto_bind; [apply exacto_ret|].
  destruct (Hrel "ct_blood"%string) as [v2 Hv2]; [esta|].
  rewrite (H1 "ct_blood"%string), Hv2 by done.
  eapply exacto_bind; [apply exacto_ret|].
  eapply exacto_bind.
  { apply exacto_asegurar_sintomas. intros c Hc.
    assert (Hne : c ≠ "mortalidad"%string).
    { intros ->. revert Hc. fuera. }
    rewrite (H1 c Hne). apply Hrel. revert Hc. clear. intros Hc.
    repeat (apply elem_of_cons in Hc as [->|Hc]; [esta|]).
    by apply elem_of_nil in Hc. }
  destruct (Hrel "gender"%string) as [v3 Hv3]; [esta|].
  rewrite (H1 "gender"%string), Hv3 by done.
  eapply exacto_bind; [apply exacto_ret|].
  rewrite (H1 "age_years"%string), Ha by done. simpl default. rewrite Hcut.
  eapply exacto_bind; [apply exacto_ret|]. cbv zeta.
  destruct (Hrel "cluster"%string) as [v4 Hv4]; [esta|].
  assert (H4 : columnas (asignar "grupo_edad" gr t1) !! "cluster" = Some v4).
  { subst t1. simpl. by rewrite !lookup_insert_ne by done. }
  rewrite H4.
  eapply exacto_bind; apply exacto_ret.
Qed.

(** Normalisation is idempotent on tables with an [outcome] column:
    normalising the result again returns it unchanged and leaves the
    generator where it was. *)
Theorem procesar_datos_idempotente (base : DataFrame) (g : G) t' g' :
  procesar_datos base g = (Some t', g') →
  is_Some (columnas base !! "outcome") →
  ∀ g2, procesar_datos t' g2 = (Some t', g2).
Proof.
  intros Hr [o Ho] g2.
  pose proof (procesar_datos_normaliza _ _ _ _ Hr)
    as [Hc Hcan (m & Hm & _ & Hout) (a & gr & Ha & _ & Hcut & Hgr)].
  assert (Ho' : columnas t' !! "outcome" = Some o).
  { eapply (co_conserva _ _ _ Hc); [fuera|done]. }
  assert (Hrel : ∀ c, c ∈ rellenables → is_Some (columnas t' !! c)).
  { intros c Hin. apply Hcan. revert Hin. clear. intros Hin.
    repeat (apply elem_of_cons in Hin as [->|Hin]; [esta|]).
    by apply elem_of_nil in Hin. }
  rewrite (procesar_datos_canonica t' o a gr Ho' Ha Hrel Hcut g2).
  do 2 f_equal. rewrite <- (Hout o Ho).
  destruct t' as [n cols]. unfold asignar. simpl in *. f_equal.
  rewrite (insert_id cols "mortalidad" m Hm). by apply insert_id.
Qed.

(** *** The synthetic table *)

Lemma tripleta_conj {A} (m : M A) (P Q : A → Prop) E E' :
  tripleta (G:=G) m P E → tripleta (G:=G) m Q E' →
  tripleta (G:=G) m (λ a, P a ∧ Q a) E.
Proof.
  intros HP HQ g.
  destruct (HP g) as [(a & g' & Hr & Ha)|(g' & Hr & He)]; [|right; by exists g'].
  left. exists a, g'. split; [done|]. split; [done|].
  by eapply tripleta_parcial.
Qed.

Ltac de_dos Hv :=
  let x := fresh "x" in
  let Hx := fresh "Hx" in
  intros x Hx; apply Hv in Hx;
  repeat (apply elem_of_cons in Hx as [->|Hx]; [auto 6|]);
  by apply elem_of_nil in Hx.

Lemma cut_adultos a gr :
  (∀ x, x ∈ a → ∃ z : Z, x = VNum (inject_Z z) ∧ (18 <= z < 80)%Z) →
  cut bins labels a = Some gr →
  ∀ y, y ∈ gr → y = VStr "18-39" ∨ y = VStr "40-59" ∨ y = VStr "60+".
Proof.
  intros Ha Hcut y (i & Hi)%list_elem_of_lookup.
  apply mapM_Some in Hcut.
  destruct (Forall2_lookup_r _ _ _ _ _ Hcut Hi) as (x & Hx & Hxy).
  destruct (Ha x) as (z & -> & Hz1 & Hz2); [by eapply list_elem_of_lookup_2|].
  destruct (cut_valor_bins (inject_Z z)) as (_ & B2 & B3 & B4).
  assert (Hq : 18 <= inject_Z z ∧ inject_Z z < 80)
    by (unfold Qle, Qlt; simpl; lia).
  destruct (Qlt_le_dec (inject_Z z) 40); [|destruct (Qlt_le_dec (inject_Z z) 60)].
  - rewrite B2 in Hxy by (split; lra). injection Hxy as <-. auto.
  - rewrite B3 in Hxy by (split; lra). injection Hxy as <-. auto.
  - rewrite B4 in Hxy by (split; lra). injection Hxy as <-. auto.
Qed.

Lemma crear_datos_ejemplo_sintetica :
  tripleta crear_datos_ejemplo sintetica True.
Proof.
  unfold crear_datos_ejemplo.
  eapply tripleta_bind; [apply tripleta_seed|]. intros _ _. cbv zeta.
  eapply tripleta_bind; [apply tripleta_randint; lia|]. intros age_years [Lage Hage].
  eapply tripleta_bind; [apply tripleta_choice; done|]. intros gender [Lgen Hgen].
  eapply tripleta_bind; [apply (tripleta_uniform 18 35); done|]. intros bmi [Lbmi Hbmi].
  eapply tripleta_bind; [apply (tripleta_uniform 16 26); done|]. intros ctb [Lctb Hctb].
  eapply tripleta_bind; [apply tripleta_choice; done|]. intros fever [Lfev Hfev].
  eapply tripleta_bind; [apply tripleta_choice; done|]. intros cough [Lcou Hcou].
  eapply tripleta_bind; [apply tripleta_choice; done|]. intros chills [Lchi Hchi].
  eapply tripleta_bind; [apply tripleta_choice; done|]. intros aches [Lach Hach].
  eapply tripleta_bind; [apply tripleta_choice; done|]. intros vomit [Lvom Hvom].
  eapply tripleta_bind; [apply tripleta_choice; done|]. intros mortalidad [Lmor Hmor].
  set (base := Build_DataFrame _ _).
  eapply tripleta_debilitar;
    [apply (tripleta_conj _ _ _ _ _ (procesar_datos_tripleta base)
              (procesar_datos_marco base))| |done].
  intros t [[Hc Hcan (m & Hm & Hmok & _) (a & gr & Ha & Hok & Hcut & Hgr)] (_ & _ & Hd)].
  assert (Hk : ∀ c v, c ≠ "mortalidad"%string → c ≠ "grupo_edad"%string →
                 columnas base !! c = Some v → columnas t !! c = Some v).
  { intros c v H1 H2 Hv. eapply (co_conserva _ _ _ Hc); [|done].
    intros [->|[->|?%elem_of_nil]%elem_of_cons]%elem_of_cons; done. }
  assert (Ha' : a = age_years).
  { unfold edad_ok in Hok. subst base. simpl in Hok. by simplify_map_eq. }
  subst a.
  split; [by rewrite (co_filas _ _ _ Hc)|].
  split; [apply Hk; [done|done|]; subst base; simpl; by simplify_map_eq|].
  split; [exists age_years, gr; repeat split; try done; by eapply cut_adultos|].
  split; [exists bmi; split; [apply Hk; [done|done|]; subst base; simpl; by simplify_map_eq|done]|].
  split; [exists ctb; split; [apply Hk; [done|done|]; subst base; simpl; by simplify_map_eq|done]|].
  split.
  { intros c Hin.
    repeat (apply elem_of_cons in Hin as [->|Hin];
            [eexists; split;
             [apply Hk; [done|done|]; subst base; simpl; by simplify_map_eq
             |first [de_dos Hfev | de_dos Hcou | de_dos Hchi | de_dos Hach | de_dos Hvom]]|]).
    by apply elem_of_nil in Hin. }
  split; [exists gender; split;
          [apply Hk; [done|done|]; subst base; simpl; by simplify_map_eq|de_dos Hgen]|].
  split.
  - destruct (Hcan "cluster"%string) as [v Hv]; [esta|]. exists v. split; [done|].
    apply (Hd "cluster"%string v); [|done]. subst base. simpl. by simplify_map_eq.
  - exists m. split; [done|]. apply Hmok.
Qed.

(** The table [crear_datos_ejemplo] returns has 500 rows numbered 1 to
    500, ages that are integers in [18, 80) with groups "18-39", "40-59"
    or "60+" only, body-mass index in [18, 35), blood-cell count in
    [16, 26), symptoms "yes" or "no", gender "m" or "f", cluster 0 to 3 and
    a mortality flag 0 or 1. *)
Theorem crear_datos_ejemplo_dominios (g : G) t g' :
  crear_datos_ejemplo g = (Some t, g') →
  n_filas t = 500%nat ∧
  columnas t !! "paciente_id" = Some (rango_ids 500) ∧
  (∃ a gr,
     columnas t !! "age_years" = Some a ∧ columnas t !! "grupo_edad" = Some gr ∧
     (∀ x, x ∈ a → ∃ z : Z, x = VNum (inject_Z z) ∧ (18 <= z < 80)%Z) ∧
     (∀ y, y ∈ gr → y = VStr "18-39" ∨ y = VStr "40-59" ∨ y = VStr "60+")) ∧
  (∃ v, columnas t !! "bmi_calculado" = Some v ∧
        ∀ x, x ∈ v → ∃ q : Q, x = VNum q ∧ 18 <= q ∧ q < 35) ∧
  (∃ v, columnas t !! "ct_blood" = Some v ∧
        ∀ x, x ∈ v → ∃ q : Q, x = VNum q ∧ 16 <= q ∧ q < 26) ∧
  (∀ c, c ∈ sintomas →
     ∃ v, columnas t !! c = Some v ∧ ∀ x, x ∈ v → x = VStr "yes" ∨ x = VStr "no") ∧
  (∃ v, columnas t !! "gender" = Some v ∧
        ∀ x, x ∈ v → x = VStr "m" ∨ x = VStr "f") ∧
  (∃ v, columnas t !! "cluster" = Some v ∧
        ∀ x, x ∈ v → x = VNum 0 ∨ x = VNum 1 ∨ x = VNum 2 ∨ x = VNum 3) ∧
  (∃ v, columnas t !! "mortalidad" = Some v ∧
        ∀ x, x ∈ v → x = VNum 0 ∨ x = VNum 1).
Proof.
  intros Hr.
  exact (tripleta_parcial _ _ _ _ _ _ crear_datos_ejemplo_sintetica Hr).
Qed.

(** *** Where the age comes from *)

(** When the input has an age column, the returned [age_years] is that
    column cell for cell: the input's [age_years] if it has one (an [age]
    column is then ignored), otherwise a copy of its [age]; nothing is
    drawn for it. *)
Theorem age_years_de_fuente (base : DataFrame) (g : G) t' g' :
  procesar_datos base g = (Some t', g') →
  is_Some (columnas base !! "age_years") ∨ is_Some (columnas base !! "age") →
  columnas t' !! "age_years" = Some (age_fuente base) ∧
  (∀ a, columnas base !! "age_years" = Some a → age_fuente base = a) ∧
  (∀ a, columnas base !! "age_years" = None → columnas base !! "age" = Some a →
        age_fuente base = a ∧ columnas t' !! "age" = Some a).
Proof.
  intros Hr Hs.
  pose proof (procesar_datos_normaliza _ _ _ _ Hr) as [Hc _ _ (a & gr & Ha & Hok & _)].
  unfold edad_ok in Hok. unfold age_fuente. split; [|split].
  - destruct (columnas base !! "age_years") as [a0|]; [congruence|].
    destruct Hs as [[? [=]]|[a1 E1]]. rewrite E1 in *. simpl. congruence.
  - by intros a0 ->.
  - intros a0 -> E. rewrite E. split; [done|].
    eapply (co_conserva _ _ _ Hc); [fuera|done].
Qed.

End Marco.





(** *** The cut into age groups *)

(** When [pd.cut] returns, the result has one cell per row; the group of
    a missing age is missing, and the group of a numeric age is missing
    exactly when the age is negative or at least 100, otherwise it is one
    of the four labels. *)
Theorem cut_grupos (col gr : list valor) :
  cut bins labels col = Some gr →
  length gr = length col ∧
  ∀ i x, col !! i = Some x →
    ∃ y, gr !! i = Some y ∧
      match x with
      | VNulo => y = VNulo
      | VNum q =>
          (y = VNulo ↔ q < 0 ∨ 100 <= q) ∧
          (y ≠ VNulo → ∃ l, y = VStr l ∧ l ∈ labels)
      | VStr _ => False
      end.
Proof.
  intros Hcut. apply mapM_Some in Hcut. split; [symmetry; by eapply Forall2_length|].
  intros i x Hi. destruct (Forall2_lookup_l _ _ _ _ _ Hcut Hi) as (y & Hy & Hxy).
  exists y. split; [done|].
  destruct x as [q|s|]; [|by simpl in Hxy|simpl in Hxy; congruence].
  destruct (Qlt_le_dec q 0) as [Hn|H0].
  { rewrite cut_valor_fuera in Hxy by auto. injection Hxy as <-. split; [|done].
    split; auto. }
  destruct (Qlt_le_dec q 100) as [H100|Hg]; cycle 1.
  { rewrite cut_valor_fuera in Hxy by auto. injection Hxy as <-. split; [|done].
    split; auto. }
  destruct (cut_valor_bins q) as (B1 & B2 & B3 & B4).
  destruct (Qlt_le_dec q 18); [|destruct (Qlt_le_dec q 40); [|destruct (Qlt_le_dec q 60)]];
    [rewrite B1 in Hxy by done|rewrite B2 in Hxy by done
    |rewrite B3 in Hxy by done|rewrite B4 in Hxy by done];
    injection Hxy as <-;
    (split; [split; [done|intros [?|?]; lra]|intros _; eexists; split; [done|esta]]).
Qed.

Lemma cut_grupos_witness :
  length [VStr "0-17"; VNulo; VNulo; VStr "60+"] = length [VNum 17; VNulo; VNum 100; VNum 99.5].
Proof.
  apply (cut_grupos [VNum 17; VNulo; VNum 100; VNum 99.5]
           [VStr "0-17"; VNulo; VNulo; VStr "60+"]).
  reflexivity.
Defined.

End NormalizerExtras.

(** ** The dashboard metrics *)

Module DashboardFacts.
Import Normalizer NormalizerFacts Relleno NormalizerExtras Dashboard.

Lemma inject_Z_S (n : nat) :
  inject_Z (Z.of_nat (S n)) == inject_Z (Z.of_nat n) + 1.
Proof. rewrite Nat2Z.inj_succ. unfold Z.succ. by rewrite inject_Z_plus. Qed.

Lemma numeros_cotas (col : list valor) (lo hi : Q) :
  (∀ x, x ∈ col → ∃ q : Q, x = VNum q ∧ lo <= q ∧ q <= hi) →
  ∃ l, numeros col = Some l ∧ length l = length col ∧
       inject_Z (Z.of_nat (length l)) * lo <= Rubric.suma l ∧
       Rubric.suma l <= inject_Z (Z.of_nat (length l)) * hi.
Proof.
  induction col as [|x col IH]; intros Hcol.
  - exists []. simpl. repeat split; try done; unfold Rubric.suma; simpl; lra.
  - destruct (Hcol x) as (q & -> & Hq1 & Hq2); [esta|].
    destruct IH as (l & Hl & Hlen & Hs1 & Hs2).
    { intros y Hy. apply Hcol. by right. }
    exists (q :: l). simpl. rewrite Hl. split; [done|]. split; [by rewrite Hlen|].
    change (Rubric.suma (q :: l)) with (q + Rubric.suma l).
    pose proof (inject_Z_S (length l)) as HS.
    change (Z.pos (Pos.of_succ_nat (length l))) with (Z.of_nat (S (length l))).
    set (N := inject_Z (Z.of_nat (length l))) in *.
    set (N' := inject_Z (Z.of_nat (S (length l)))) in *.
    assert (E1 : N' * lo == N * lo + lo) by (rewrite HS; ring).
    assert (E2 : N' * hi == N * hi + hi) by (rewrite HS; ring).
    rewrite E1, E2. split; lra.
Qed.

(** The mean of a non-empty column of numbers between [lo] and [hi] is a
    number between [lo] and [hi]. *)
Lemma serie_mean_cotas (col : list valor) (lo hi : Q) :
  col ≠ [] →
  (∀ x, x ∈ col → ∃ q : Q, x = VNum q ∧ lo <= q ∧ q <= hi) →
  ∃ r, serie_mean col = Some (VNum r) ∧ lo <= r ∧ r <= hi.
Proof.
  intros Hne Hcol.
  destruct (numeros_cotas col lo hi Hcol) as (l & Hl & Hlen & Hs1 & Hs2).
  unfold serie_mean. rewrite Hl.
  destruct l as [|q l]; [by destruct col|].
  eexists. split; [done|].
  assert (Hpos : 0 < inject_Z (Z.of_nat (length (q :: l))))
    by (unfold Qlt; simpl; lia).
  split.
  - apply Qle_shift_div_l; [done|]. by rewrite Qmult_comm.
  - apply Qle_shift_div_r; [done|]. by rewrite Qmult_comm.
Qed.

Lemma numeros_sin_texto (col : list valor) :
  (∀ s, VStr s ∉ col) → is_Some (numeros col).
Proof.
  induction col as [|x col IH]; intros Hs; simpl; [by eexists|].
  destruct IH as [l Hl]; [intros s Hin; apply (Hs s); by right|].
  destruct x as [q|s|].
  - rewrite Hl. by eexists.
  - exfalso. apply (Hs s). esta.
  - by eexists.
Qed.

Lemma serie_mean_sin_texto (col : list valor) :
  (∀ s, VStr s ∉ col) →
  ∃ e, serie_mean col = Some e ∧ (e = VNulo ∨ ∃ r, e = VNum r).
Proof.
  intros Hs. destruct (numeros_sin_texto col Hs) as [l Hl].
  unfold serie_mean. rewrite Hl. destruct l; eexists; split; eauto.
Qed.

Lemma cut_sin_texto bs ls col gr s :
  cut bs ls col = Some gr → VStr s ∉ col.
Proof.
  intros Hcut (i & Hi)%list_elem_of_lookup. apply mapM_Some in Hcut.
  by destruct (Forall2_lookup_l _ _ _ _ _ Hcut Hi) as (y & _ & Hxy).
Qed.

Lemma tasa_cotas (m : list valor) :
  m ≠ [] → (∀ x, x ∈ m → x = VNum 0 ∨ x = VNum 1) →
  ∃ q, (por_cien <$> serie_mean m) = Some (VNum q) ∧ 0 <= q ∧ q <= 100.
Proof.
  intros Hne Hm.
  destruct (serie_mean_cotas m 0 1 Hne) as (r & Hr & Hr0 & Hr1).
  { intros x Hx. destruct (Hm x Hx) as [->| ->]; eexists; (split; [done|]); lra. }
  rewrite Hr. simpl. eexists. split; [done|]. lra.
Qed.

Section Metricas.
Context {G : Type} `{Aleatorio G}.

(** On the normalisation of a well-formed table with at least one row
    the metrics are computed without raising: the patient count is the
    row count, the mortality rate is a number between 0 and 100, and the
    mean age is a number or NaN. *)
Theorem metricas_normalizada (base : DataFrame) (g : G) t' g' :
  bien_formada base → (0 < n_filas base)%nat →
  procesar_datos base g = (Some t', g') →
  ∃ q e,
    metricas t' = Some {| total_pacientes := n_filas base;
                          tasa_mortalidad := VNum q;
                          edad_promedio := e |} ∧
    0 <= q ∧ q <= 100 ∧ (e = VNulo ∨ ∃ r, e = VNum r).
Proof.
  intros Hw Hpos Hr.
  pose proof (procesar_datos_normaliza _ _ _ _ Hr)
    as [Hc Hcan (m & Hm & Hmok & _) (a & gr & Ha & _ & Hcut & _)].
  pose proof (co_forma _ _ _ Hc Hw) as Hw'.
  pose proof (co_filas _ _ _ Hc) as Hf.
  assert (Hne : m ≠ []).
  { intros ->. pose proof (Hw' _ _ Hm) as Hl. simpl in Hl. lia. }
  destruct (tasa_cotas m Hne Hmok) as (q & Hq & Hq0 & Hq1).
  destruct (serie_mean_sin_texto a) as (e & He & Hev).
  { intros s. by eapply cut_sin_texto. }
  exists q, e. split; [|done].
  unfold metricas. rewrite Hm, Ha, He.
  destruct (serie_mean m) as [tm|]; [|done]. simpl in Hq.
  injection Hq as ->. by rewrite Hf.
Qed.

(** When the file cannot be read, the dashboard shows 500 patients, a
    mortality rate between 0 and 100 and a mean age of at least 18 and
    below 80. *)
Theorem metricas_sinteticas (g : G) t g' :
  cargar_datos None g = (Some t, g') →
  ∃ q e,
    metricas t = Some {| total_pacientes := 500;
                         tasa_mortalidad := VNum q;
                         edad_promedio := VNum e |} ∧
    0 <= q ∧ q <= 100 ∧ 18 <= e ∧ e < 80.
Proof.
  intros Hr.
  assert (Hr' : crear_datos_ejemplo g = (Some t, g')) by exact Hr.
  pose proof (tripleta_parcial _ _ _ _ _ _ crear_datos_ejemplo_tripleta Hr')
    as (Hn & Hp & _).
  pose proof (tripleta_parcial _ _ _ _ _ _ crear_datos_ejemplo_sintetica Hr')
    as (_ & _ & (a & gr & Ha & _ & Hage & _) & _ & _ & _ & _ & _ & (m & Hm & Hmok)).
  assert (Hlm : length m = 500%nat).
  { destruct (Hp "mortalidad"%string) as (v & Hv & Hl & _); [esta|].
    rewrite Hn in Hl. congruence. }
  assert (Hla : length a = 500%nat).
  { destruct (Hp "age_years"%string) as (v & Hv & Hl & _); [esta|].
    rewrite Hn in Hl. congruence. }
  destruct (tasa_cotas m) as (q & Hq & Hq0 & Hq1); [by intros ->|done|].
  destruct (serie_mean_cotas a 18 79) as (e & He & He0 & He1); [by intros ->| |].
  { intros x Hx. destruct (Hage x Hx) as (z & -> & Hz1 & Hz2).
    exists (inject_Z z). split; [done|]. unfold Qle; simpl. lia. }
  exists q, e. split; [|repeat split; lra].
  unfold metricas. rewrite Hm, Ha, He.
  destruct (serie_mean m) as [tm|]; [|done]. simpl in Hq.
  injection Hq as ->. by rewrite Hn.
Qed.

End Metricas.

End DashboardFacts.

(** ** Runs of the further properties on concrete tables *)

Module Ejecuciones.
Import Normalizer NormalizerFacts Relleno NormalizerExtras Dashboard DashboardFacts.
Import Generador.

Lemma tabla_con_hueco_sin_texto s : VStr s ∉ age_fuente tabla_con_hueco.
Proof.
  assert (age_fuente tabla_con_hueco = [VNum 34; VNum 71]) as -> by reflexivity.
  fuera.
Qed.

Lemma cargar_datos_archivo_witness :
  cargar_datos (Some tabla_con_hueco) 7%Z = procesar_datos tabla_con_hueco 7%Z.
Proof.
  exact (proj1 (proj1 (cargar_datos_archivo tabla_con_hueco 7%Z)
                  tabla_con_hueco_sin_texto)).
Defined.

Lemma procesar_datos_columnas_witness :
  match procesar_datos tabla_con_hueco 7%Z with
  | (Some t', _) => n_filas t' = n_filas tabla_con_hueco
  | (None, _) => False
  end.
Proof.
  destruct (procesar_datos tabla_con_hueco 7%Z) as [[t'|] g'] eqn:Hr.
  - exact (proj1 (procesar_datos_columnas tabla_con_hueco 7%Z t' g' Hr)).
  - vm_compute in Hr. discriminate.
Defined.

Lemma procesar_datos_dominios_witness :
  match procesar_datos tabla_con_hueco 7%Z with
  | (Some t', _) =>
      columnas tabla_con_hueco !! "bmi_calculado" = None →
      ∃ v, columnas t' !! "bmi_calculado" = Some v ∧
           ∀ x, x ∈ v → ∃ q : Q, x = VNum q ∧ 18 <= q ∧ q < 35
  | (None, _) => False
  end.
Proof.
  destruct (procesar_datos tabla_con_hueco 7%Z) as [[t'|] g'] eqn:Hr.
  - exact (proj1 (procesar_datos_dominios tabla_con_hueco 7%Z t' g' Hr)).
  - vm_compute in Hr. discriminate.
Defined.

Lemma mortalidad_de_outcome_witness :
  match procesar_datos tabla_con_hueco 7%Z with
  | (Some t', _) =>
      ∃ m, columnas t' !! "mortalidad" = Some m ∧ length m = 2%nat ∧
           ∀ i x, [VStr "Recover"; VStr "Death"] !! i = Some x →
             (x = VStr "Death" → m !! i = Some (VNum 1)) ∧
             (x ≠ VStr "Death" → m !! i = Some (VNum 0))
  | (None, _) => False
  end.
Proof.
  destruct (procesar_datos tabla_con_hueco 7%Z) as [[t'|] g'] eqn:Hr.
  - exact (mortalidad_de_outcome tabla_con_hueco 7%Z t' g'
             [VStr "Recover"; VStr "Death"] Hr eq_refl).
  - vm_compute in Hr. discriminate.
Defined.

Lemma procesar_datos_idempotente_witness :
  match procesar_datos tabla_con_hueco 7%Z with
  | (Some t', g') => procesar_datos t' g' = (Some t', g')
  | (None, _) => False
  end.
Proof.
  destruct (procesar_datos tabla_con_hueco 7%Z) as [[t'|] g'] eqn:Hr.
  - apply (procesar_datos_idempotente tabla_con_hueco 7%Z t' g' Hr).
    by eexists.
  - vm_compute in Hr. discriminate.
Defined.

Lemma crear_datos_ejemplo_dominios_witness :
  match crear_datos_ejemplo 7%Z with
  | (Some t, _) => n_filas t = 500%nat
  | (None, _) => False
  end.
Proof.
  destruct (crear_datos_ejemplo 7%Z) as [[t|] g'] eqn:Hr.
  - exact (proj1 (crear_datos_ejemplo_dominios 7%Z t g' Hr)).
  - vm_compute in Hr. discriminate.
Defined.

Lemma metricas_normalizada_witness :
  match procesar_datos tabla_con_hueco 7%Z with
  | (Some t', _) =>
      ∃ q e,
        metricas t' = Some {| total_pacientes := 2;
                              tasa_mortalidad := VNum q;
                              edad_promedio := e |} ∧
        0 <= q ∧ q <= 100 ∧ (e = VNulo ∨ ∃ r, e = VNum r)
  | (None, _) => False
  end.
Proof.
  destruct (procesar_datos tabla_con_hueco 7%Z) as [[t'|] g'] eqn:Hr.
  - apply (metricas_normalizada tabla_con_hueco 7%Z t' g').
    + apply tabla_con_hueco_bien_formada.
    + simpl. lia.
    + exact Hr.
  - vm_compute in Hr. discriminate.
Defined.

Lemma metricas_sinteticas_witness :
  match cargar_datos None 7%Z with
  | (Some t, _) =>
      ∃ q e,
        metricas t = Some {| total_pacientes := 500;
                             tasa_mortalidad := VNum q;
                             edad_promedio := VNum e |} ∧
        0 <= q ∧ q <= 100 ∧ 18 <= e ∧ e < 80
  | (None, _) => False
  end.
Proof.
  destruct (cargar_datos None 7%Z) as [[t|] g'] eqn:Hr.
  - exact (metricas_sinteticas 7%Z t g' Hr).
  - vm_compute in Hr. discriminate.
Defined.

Lemma age_years_de_fuente_witness :
  match procesar_datos tabla_con_hueco 7%Z with
  | (Some t', _) => columnas t' !! "age_years" = Some [VNum 34; VNum 71]
  | (None, _) => False
  end.
Proof.
  destruct (procesar_datos tabla_con_hueco 7%Z) as [[t'|] g'] eqn:Hr.
  - refine (proj1 (age_years_de_fuente tabla_con_hueco 7%Z t' g' Hr _)).
    right. by eexists.
  - vm_compute in Hr. discriminate.
Defined.

End Ejecuciones.
